(** * Selection synchronisation of the bar-chart visual (src/visual.ts)

    A shallow embedding of the [Visual] class: the live render tree is a
    store of elements addressed by node references, d3 selections are
    lists of such references, and the methods of the class are functions
    that thread the store.  The host's selection identifiers are an
    interface with the single predicate [includes]. *)

From Stdlib Require Import QArith_base.
From stdpp Require Import gmap strings list fin_maps.

Local Open Scope string_scope.
Local Open Scope list_scope.

(** ** The host interface *)

(** [ISelectionId] of the host API: an opaque token whose only operation
    used by the visual is [includes]. *)
Class SelectionId (I : Type) := { includes : I → I → bool }.

(** ** The render tree *)

(** Node references: the identity of a DOM element object. *)
Abbreviation node := nat.

(** A value given to [selection.style]: a number or a keyword. *)
Inductive css_value : Type :=
  | CssNumber (q : Q)
  | CssKeyword (s : string).

(** Abrupt or normal end of a method body. *)
Inductive completion : Type :=
  | Normal
  | TypeError.

(** Selectors used by the visual: [".c"] and ["*"]. *)
Inductive selector : Type :=
  | ByClass (c : string)
  | Universal.

Section Visual.

Context {I : Type} `{SelectionId I}.
(** JavaScript numbers of the data and of the geometry; the visual hands
    them to d3 and never computes on them itself. *)
Context {number : Type}.

(** [interface IDatapoint]; [value] is [revenue[categoryIndex]], which
    is [undefined] past the end of the array. *)
Record IDatapoint : Type := {
  country : string;
  value : option number;
  selectionId : I;
}.

(** A value given to [selection.attr]. *)
Inductive attr_value : Type :=
  | AttrNumber (x : number)
  | AttrString (s : string).

(** One element of the render tree, with what d3 keeps on it: the bound
    datum ([__data__]), inline styles, attributes and the event types
    that have a listener. *)
Record Element : Type := {
  tagName : string;
  classList : list string;
  parentNode : option node;
  datum : option IDatapoint;
  style : gmap string css_value;
  attributes : gmap string attr_value;
  listeners : gset string;
}.

(** The store of all element objects, attached or not, and the root of
    the document. *)
Record Document : Type := {
  nodes : gmap node Element;
  documentElement : node;
}.

Definition with_nodes (f : gmap node Element → gmap node Element)
    (d : Document) : Document :=
  {| nodes := f (nodes d); documentElement := documentElement d |}.

Definition parent_of (d : Document) (n : node) : option node :=
  nodes d !! n ≫= parentNode.

Definition datum_of (d : Document) (n : node) : option IDatapoint :=
  nodes d !! n ≫= datum.

Definition style_of (d : Document) (n : node) (name : string)
    : option css_value :=
  nodes d !! n ≫= λ e, style e !! name.

(** [a] is a proper ancestor of [n]: the walk up the parent links, at
    most [fuel] steps long. *)
Fixpoint has_ancestor (fuel : nat) (d : Document) (a n : node) : bool :=
  match fuel with
  | O => false
  | S fuel' =>
      match parent_of d n with
      | None => false
      | Some p => bool_decide (p = a) || has_ancestor fuel' d a p
      end
  end.

(** No walk up an acyclic tree is longer than the number of its nodes. *)
Definition depth_bound (d : Document) : nat := S (size (nodes d)).

Definition contains (d : Document) (a n : node) : bool :=
  has_ancestor (depth_bound d) d a n.

Definition isConnected (d : Document) (n : node) : bool :=
  bool_decide (n = documentElement d) || contains d (documentElement d) n.

Definition matches (s : selector) (e : Element) : bool :=
  match s with
  | ByClass c => bool_decide (c ∈ classList e)
  | Universal => true
  end.

(** [querySelectorAll]: from the document ([scope = None]) every
    connected element that matches, from an element its matching proper
    descendants.  The result is a set of references; d3 lists it in
    document order, here it comes in the order of the store. *)
Definition in_scope (d : Document) (scope : option node) (n : node) : bool :=
  match scope with
  | None => isConnected d n
  | Some a => contains d a n
  end.

Definition querySelectorAll (d : Document) (scope : option node)
    (s : selector) : list node :=
  elements (dom (filter
    (λ ne, in_scope d scope ne.1 && matches s ne.2 = true) (nodes d))).

(** d3's global [selectAll(selector)]. *)
Definition selectAll (s : selector) (d : Document) : list node :=
  querySelectorAll d None s.

(** ** d3 selection operations

    A selection is a list of node references; a reference that resolves
    to no element stands for a hole of the selection's group, which every
    d3 operation skips. *)

Definition set_style (name : string) (v : css_value) (e : Element)
    : Element :=
  {| tagName := tagName e; classList := classList e;
     parentNode := parentNode e; datum := datum e;
     style := <[name := v]> (style e);
     attributes := attributes e; listeners := listeners e |}.

(** A property change made on every node of a selection. *)
Definition selection_alter (f : Element → Element) (sel : list node)
    (d : Document) : Document :=
  with_nodes (λ m, foldl (λ m n, alter f n m) m sel) d.

(** [selection.style(name, value)] with a value that is not null. *)
Definition selection_style (name : string) (v : css_value)
    : list node → Document → Document :=
  selection_alter (set_style name v).

(** [selection.each(callback)]: the callback gets the datum of each node
    in turn; an exception in the callback ends the loop. *)
Fixpoint selection_each
    (callback : option IDatapoint → node → Document → Document * completion)
    (sel : list node) (d : Document) : Document * completion :=
  match sel with
  | [] => (d, Normal)
  | n :: sel' =>
      match nodes d !! n with
      | None => selection_each callback sel' d
      | Some e =>
          match callback (datum e) n d with
          | (d', Normal) => selection_each callback sel' d'
          | (d', TypeError) => (d', TypeError)
          end
      end
  end.

(** ** [syncSelectionState] *)

Definition opacity_full : css_value := CssNumber 1.
Definition opacity_dimmed : css_value := CssNumber 0.5.

(** The arrow function given to [barSelection.each] (lines 161-169):
    reading [datapoint.selectionId] of an undefined datum throws. *)
Definition sync_callback (selectionIds : list I)
    (datapoint : option IDatapoint) (n : node) (d : Document)
    : Document * completion :=
  match datapoint with
  | None => (d, TypeError)
  | Some dp =>
      let selectionId := selectionId dp in
      let isSelected :=
        existsb (λ currentSelectionId, includes currentSelectionId selectionId)
          selectionIds in
      let opacity := if isSelected then opacity_full else opacity_dimmed in
      (selection_style "opacity" opacity [n] d, Normal)
  end.

(** [None] is an undefined argument. *)
Definition syncSelectionState (barSelection : option (list node))
    (selectionIds : option (list I)) (d : Document)
    : Document * completion :=
  match barSelection, selectionIds with
  | None, _ | _, None => (d, Normal)
  | Some barSelection, Some selectionIds =>
      if (length selectionIds =? 0)%nat then
        (selection_style "opacity" opacity_full
           (selectAll (ByClass "bar") d) d, Normal)
      else
        selection_each (sync_callback selectionIds) barSelection d
  end.

(** ** The other selection operations used by [update] *)

Definition add_class (c : string) (e : Element) : Element :=
  {| tagName := tagName e;
     classList := if bool_decide (c ∈ classList e) then classList e
                  else classList e ++ [c];
     parentNode := parentNode e; datum := datum e; style := style e;
     attributes := attributes e; listeners := listeners e |}.

Definition set_datum (dp : IDatapoint) (e : Element) : Element :=
  {| tagName := tagName e; classList := classList e;
     parentNode := parentNode e; datum := Some dp; style := style e;
     attributes := attributes e; listeners := listeners e |}.

(** [value == null] removes the attribute. *)
Definition set_attr (name : string) (v : option attr_value) (e : Element)
    : Element :=
  {| tagName := tagName e; classList := classList e;
     parentNode := parentNode e; datum := datum e; style := style e;
     attributes := match v with
                   | Some v => <[name := v]> (attributes e)
                   | None => delete name (attributes e)
                   end;
     listeners := listeners e |}.

Definition add_listener (type : string) (e : Element) : Element :=
  {| tagName := tagName e; classList := classList e;
     parentNode := parentNode e; datum := datum e; style := style e;
     attributes := attributes e; listeners := {[type]} ∪ listeners e |}.

Definition detach (e : Element) : Element :=
  {| tagName := tagName e; classList := classList e;
     parentNode := None; datum := datum e; style := style e;
     attributes := attributes e; listeners := listeners e |}.

(** [selection.classed(c, true)]. *)
Definition selection_classed (c : string) : list node → Document → Document :=
  selection_alter (add_class c).

(** [selection.attr(name, value)]. *)
Definition selection_attr (name : string) (v : option attr_value)
    : list node → Document → Document :=
  selection_alter (set_attr name v).

(** [selection.on(type, listener)]. *)
Definition selection_on (type : string) : list node → Document → Document :=
  selection_alter (add_listener type).

(** [selection.remove()]: every node of the selection leaves its parent. *)
Definition selection_remove : list node → Document → Document :=
  selection_alter detach.

(** [selection.data(array)] on a selection of one group: the datum of
    index [i] is bound to the node of index [i]; the result is the update
    selection. *)
Fixpoint selection_data (data : list IDatapoint) (sel : list node)
    (d : Document) : Document * list node :=
  match data, sel with
  | dp :: data', n :: sel' =>
      let '(d', upd) :=
        selection_data data' sel' (selection_alter (set_datum dp) [n] d) in
      (d', if nodes d !! n is Some _ then n :: upd else upd)
  | _, _ => (d, [])
  end.

Definition createElement (tag : string) (parent : node) : Element :=
  {| tagName := tag; classList := []; parentNode := Some parent;
     datum := None; style := ∅; attributes := ∅; listeners := ∅ |}.

(** [selection.append(tag)]: a new last child under each node of the
    selection; the new element inherits the datum of its parent. *)
Fixpoint selection_append (tag : string) (sel : list node) (d : Document)
    : Document * list node :=
  match sel with
  | [] => (d, [])
  | p :: sel' =>
      match nodes d !! p with
      | None => selection_append tag sel' d
      | Some pe =>
          let n := fresh (dom (nodes d)) in
          let e := createElement tag p in
          let e := match datum pe with
                   | Some dp => set_datum dp e
                   | None => e
                   end in
          let '(d', new) :=
            selection_append tag sel' (with_nodes (insert n e) d) in
          (d', n :: new)
      end
  end.

(** ** The host's update options *)

Record DataViewCategoryColumn : Type := { categoryValues : list string }.
Record DataViewValueColumn : Type := { columnValues : list number }.

(** [categorical.categories] and [categorical.values] are optional in
    the host API. *)
Record DataViewCategorical : Type := {
  categories : option (list DataViewCategoryColumn);
  valueColumns : option (list DataViewValueColumn);
}.

Record DataView : Type := { categorical : option DataViewCategorical }.

Record VisualUpdateOptions : Type := {
  viewport_width : number;
  viewport_height : number;
  dataViews : option (list DataView);
}.

(** What the visual takes from outside the file: the selection-id
    builder of the host, the formatting model of [./settings] read at
    [barChartCard.showBars.value], the scales of d3 and the event types
    the tooltip wrapper listens to. *)
Variable createSelectionId : DataViewCategoryColumn → nat → I.
Variable populate_showBars : option (list DataView) → bool.
Variable d3_max : list number → option number.
Variable scaleBand : list string → number → string → option number.
Variable bandwidth : list string → number → number.
Variable scaleLinear : option number → number → option number → number.
Variable number_sub : number → number → number.
Variable tooltip_events : list string.

(** The fields of the [Visual] object that [update] reads or writes. *)
Record Visual : Type := {
  target : node;
  visualSVG : list node;
  showBars : bool;
}.

(** [constructor] (lines 60-68). *)
Definition constructor (element : node) (d : Document) : Visual * Document :=
  let '(d, svg) := selection_append "svg" [element] d in
  let d := selection_classed "visualSVG" svg d in
  ({| target := element; visualSVG := svg; showBars := false |}, d).

(** Lines 78-80: each dereference of an undefined value throws. *)
Definition read_dataViews (options : VisualUpdateOptions)
    : option (DataViewCategoryColumn * list string * list number) :=
  dvs ← dataViews options;
  dv ← head dvs;
  cat ← categorical dv;
  cats ← categories cat;
  c0 ← head cats;
  vals ← valueColumns cat;
  v0 ← head vals;
  Some (c0, categoryValues c0, columnValues v0).

(** The body of [countries.forEach] (lines 88-116). *)
Definition draw_bar (v : Visual) (visualHeight barWidth : number)
    (xScale : string → option number) (yScale : option number → number)
    (category0 : DataViewCategoryColumn) (revenue : list number)
    (country : string) (categoryIndex : nat) (d : Document) : Document :=
  let revenueValue := revenue !! categoryIndex in
  let x := xScale country in
  let height := yScale revenueValue in
  let categorySelectionId := createSelectionId category0 categoryIndex in
  let datapoint :=
    {| value := revenueValue; country := country;
       selectionId := categorySelectionId |} in
  let '(d, rect) := selection_append "rect" (visualSVG v) d in
  let d := selection_classed "bar" rect d in
  let '(d, rect) := selection_data [datapoint] rect d in
  let d := selection_attr "width" (Some (AttrNumber barWidth)) rect d in
  let d := selection_attr "height" (Some (AttrNumber height)) rect d in
  let d := selection_attr "fill" (Some (AttrString "red")) rect d in
  let d := selection_attr "stroke" (Some (AttrString "black")) rect d in
  let d := selection_attr "x" (AttrNumber <$> x) rect d in
  let d := selection_attr "y"
             (Some (AttrNumber (number_sub visualHeight height))) rect d in
  let d := selection_style "display"
             (CssKeyword (if showBars v then "block" else "none")) rect d in
  selection_on "click" rect d.

Fixpoint forEach_from {A : Type} (f : A → nat → Document → Document)
    (l : list A) (i : nat) (d : Document) : Document :=
  match l with
  | [] => d
  | a :: l' => forEach_from f l' (S i) (f a i d)
  end.

(** [handleContextMenu] (lines 128-137). *)
Definition handleContextMenu (d : Document) : Document :=
  selection_on "contextmenu" (selectAll (ByClass "bar") d) d.

(** [tooltipServiceWrapper.addTooltip(selection, ...)]: the wrapper
    subscribes to its pointer events on the selection. *)
Definition addTooltip (sel : list node) (d : Document) : Document :=
  foldl (λ d type, selection_on type sel d) d tooltip_events.

(** [update] (lines 70-126). *)
Definition update (v : Visual) (options : VisualUpdateOptions)
    (d : Document) : Visual * Document * completion :=
  let v := {| target := target v; visualSVG := visualSVG v;
              showBars := populate_showBars (dataViews options) |} in
  let old :=
    n ← visualSVG v; querySelectorAll d (Some n) Universal in
  let d := selection_remove old d in
  let visualWidth := viewport_width options in
  let visualHeight := viewport_height options in
  match read_dataViews options with
  | None => (v, d, TypeError)
  | Some (category0, countries, revenue) =>
      let maxRevenue := d3_max revenue in
      let xScale := scaleBand countries visualWidth in
      let yScale := scaleLinear maxRevenue visualHeight in
      let barWidth := bandwidth countries visualWidth in
      let d :=
        forEach_from
          (draw_bar v visualHeight barWidth xScale yScale category0 revenue)
          countries 0 d in
      let d := addTooltip (selectAll (ByClass "bar") d) d in
      let d := handleContextMenu d in
      (v, d, Normal)
  end.

(** What [draw_bar] leaves on the element it creates under [svg] for
    the category of index [categoryIndex]. *)
Definition drawn_bar (v : Visual) (svg : node)
    (category0 : DataViewCategoryColumn) (revenue : list number)
    (country : string) (categoryIndex : nat) (e : Element) : Prop :=
  tagName e = "rect" ∧ classList e = ["bar"] ∧ parentNode e = Some svg
  ∧ datum e = Some {| value := revenue !! categoryIndex; country := country;
                      selectionId := createSelectionId category0 categoryIndex |}
  ∧ style e = {["display" := CssKeyword (if showBars v then "block" else "none")]}.

(** The continuation of the click listener (lines 112-114), run when the
    host's [select] promise resolves with [ids]. *)
Definition click_resolved (ids : option (list I)) (d : Document)
    : Document * completion :=
  syncSelectionState (Some (selectAll (ByClass "bar") d)) ids d.

(** ** Vocabulary of the statements *)

(** The emphasis that [sync_callback] writes for a datum. *)
Definition emphasis (selectionIds : list I) (dp : IDatapoint) : css_value :=
  if existsb (λ currentSelectionId,
                includes currentSelectionId (selectionId dp)) selectionIds
  then opacity_full else opacity_dimmed.

Definition emphasise (selectionIds : list I) (e : Element) : Element :=
  match datum e with
  | Some dp => set_style "opacity" (emphasis selectionIds dp) e
  | None => e
  end.

(** The nodes the loop of [selection_each] reaches with a datum before
    the callback throws, and how the loop ends. *)
Fixpoint visited (d : Document) (sel : list node) : list node :=
  match sel with
  | [] => []
  | n :: sel' =>
      match nodes d !! n with
      | None => visited d sel'
      | Some e => if datum e is Some _ then n :: visited d sel' else []
      end
  end.

Fixpoint each_completion (d : Document) (sel : list node) : completion :=
  match sel with
  | [] => Normal
  | n :: sel' =>
      match nodes d !! n with
      | None => each_completion d sel'
      | Some e => if datum e is Some _ then each_completion d sel'
                  else TypeError
      end
  end.

(** A mark: an element that carries a datapoint. *)
Definition is_mark (d : Document) (n : node) : Prop :=
  is_Some (datum_of d n).

(** A rendered mark, as [update] draws it: an element of class [bar]
    that carries a datapoint and is connected to the document. *)
Definition rendered_mark (d : Document) (n : node) : Prop :=
  ∃ e dp, nodes d !! n = Some e ∧ datum e = Some dp
          ∧ "bar" ∈ classList e ∧ isConnected d n = true.

(** An element that the document lookup [".bar"] finds. *)
Definition rendered_bar (d : Document) (n : node) : Prop :=
  n ∈ selectAll (ByClass "bar") d.

#[global] Instance rendered_bar_dec d n : Decision (rendered_bar d n).
Proof. unfold rendered_bar. apply _. Defined.

(** The marks a call writes to: those of the document lookup when the
    selection set is empty, those of the first argument otherwise. *)
Definition updates (barSelection : list node) (selectionIds : list I)
    (d : Document) (n : node) : Prop :=
  match selectionIds with
  | [] => rendered_bar d n
  | _ :: _ => n ∈ barSelection
  end.

(** An element with its opacity style left out. *)
Definition without_opacity (e : Element) : Element :=
  {| tagName := tagName e; classList := classList e;
     parentNode := parentNode e; datum := datum e;
     style := delete "opacity" (style e);
     attributes := attributes e; listeners := listeners e |}.

(** ** [getTooltipData] and the tooltip identity *)

Record VisualTooltipDataItem : Type := {
  header : string;
  displayName : string;
  tooltipValue : string;
}.

(** The string a template literal makes of a number. *)
Variable number_toString : number → string.

(** [getTooltipData] (lines 139-149).  The argument is the datum the
    tooltip wrapper hands over; [None] as a result is the TypeError of
    reading [data.country] of an undefined argument, and an undefined
    [data.value] prints as ["undefined"]. *)
Definition getTooltipData (data : option IDatapoint)
    : option (list VisualTooltipDataItem) :=
  match data with
  | None => None
  | Some data =>
      let tooltipDataArray : list VisualTooltipDataItem := [] in
      let tooltipDataArray :=
        tooltipDataArray ++
        [{| header := country data;
            displayName := "Revenue";
            tooltipValue := match value data with
                            | Some x => number_toString x
                            | None => "undefined"
                            end |}] in
      Some tooltipDataArray
  end.

(** The identity delegate of line 121, [tooltipEvent.selectionId]. *)
Definition getDataPointIdentity (data : option IDatapoint) : option I :=
  selectionId <$> data.

(** ** Further vocabulary *)

(** What a resolved click writes on a rendered bar. *)
Definition click_emphasis (selectionIds : list I) (e : Element) : Element :=
  match selectionIds with
  | [] => set_style "opacity" opacity_full e
  | _ :: _ => emphasise selectionIds e
  end.

(** Every element of class [bar] in the store carries a datapoint. *)
Definition bars_are_marks (d : Document) : Prop :=
  map_Forall (λ _ e, "bar" ∈ classList e → is_Some (datum e)) (nodes d).

(** The svg is connected to the document and none of its descendants
    is the svg itself or one of its ancestors. *)
Definition svg_in_tree (d : Document) (svg : node) : Prop :=
  isConnected d svg = true
  ∧ Forall (λ a, a ≠ svg ∧ contains d a svg = false)
      (querySelectorAll d (Some svg) Universal).

(** The visual holds a one-node selection of an element of the store. *)
Definition visual_ok (v : Visual) (d : Document) : Prop :=
  ∃ svg, visualSVG v = [svg] ∧ is_Some (nodes d !! svg).

(** The geometry, colours and listener that [draw_bar] leaves on the
    element it creates. *)
Definition drawn_look (visualHeight barWidth : number)
    (xScale : string → option number) (yScale : option number → number)
    (revenue : list number) (country : string) (categoryIndex : nat)
    (e : Element) : Prop :=
  attributes e !! "width" = Some (AttrNumber barWidth)
  ∧ attributes e !! "height"
    = Some (AttrNumber (yScale (revenue !! categoryIndex)))
  ∧ attributes e !! "fill" = Some (AttrString "red")
  ∧ attributes e !! "stroke" = Some (AttrString "black")
  ∧ attributes e !! "x" = AttrNumber <$> xScale country
  ∧ attributes e !! "y"
    = Some (AttrNumber
              (number_sub visualHeight (yScale (revenue !! categoryIndex)))).

(** [e'] is [e] with more listeners, those of [types] among them. *)
Definition listens (types : list string) (e e' : Element) : Prop :=
  (tagName e', classList e', parentNode e', datum e', style e', attributes e')
  = (tagName e, classList e, parentNode e, datum e, style e, attributes e)
  ∧ listeners e ⊆ listeners e'
  ∧ Forall (λ type, type ∈ listeners e') types.

(** Every parent link of the store leads to an element of the store. *)
Definition closed_store (d : Document) : Prop :=
  map_Forall (λ _ e, if parentNode e is Some p then is_Some (nodes d !! p)
                     else True) (nodes d).

#[global] Instance bars_are_marks_dec d : Decision (bars_are_marks d).
Proof. unfold bars_are_marks. apply _. Defined.

#[global] Instance svg_in_tree_dec d svg : Decision (svg_in_tree d svg).
Proof. unfold svg_in_tree. apply _. Defined.

#[global] Instance closed_store_dec d : Decision (closed_store d).
Proof.
  unfold closed_store. apply map_Forall_dec.
  intros n e. destruct (parentNode e); apply _.
Defined.

(** The state in which the host finds the visual between two events. *)
Definition well_placed (v : Visual) (d : Document) : Prop :=
  ∃ svg, visualSVG v = [svg] ∧ is_Some (nodes d !! svg)
         ∧ closed_store d ∧ svg_in_tree d svg ∧ bars_are_marks d.

(** The events the host sends: a redraw with its options, and the
    resolution of the selection promise of a click. *)
Inductive event : Type :=
  | Redraw (options : VisualUpdateOptions)
  | ClickResolved (ids : option (list I)).

(** One event; an exception ends the handler, not the visual. *)
Definition handle (ev : event) (s : Visual * Document) : Visual * Document :=
  match ev with
  | Redraw options => (update s.1 options s.2).1
  | ClickResolved ids => (s.1, (click_resolved ids s.2).1)
  end.

Definition handle_all (evs : list event) (s : Visual * Document)
    : Visual * Document :=
  foldl (λ s ev, handle ev s) s evs.

End Visual.

(** ** A fake identifier type for concrete runs

    Composite identifiers: a list of keys; one identifier includes
    another when it carries all the keys of the other. *)
#[export] Instance key_list_id : SelectionId (list nat) :=
  {| includes a b := forallb (λ k, bool_decide (k ∈ a)) b |}.

Module Scenario.

Definition datapoint (k : nat) : IDatapoint (number:=Z) :=
  {| country := "c"; value := Some 7%Z; selectionId := [k] |}.

Definition bar (k : nat) (op : option css_value) : Element :=
  {| tagName := "rect"; classList := ["bar"]; parentNode := Some 1;
     datum := Some (datapoint k);
     style := match op with Some v => {["opacity" := v]} | None => ∅ end;
     attributes := ∅; listeners := ∅ |}.

Definition plain (tag : string) (parent : option node)
    : Element (I:=list nat) (number:=Z) :=
  {| tagName := tag; classList := []; parentNode := parent; datum := None;
     style := ∅; attributes := ∅; listeners := ∅ |}.

(** html(0) > svg(1) > three bars (2,3,4) for the identifiers A=[10],
    B=[20], C=[30]; node 5 is a div beside the svg. *)
Definition doc : Document :=
  {| nodes := list_to_map
       [(0, plain "html" None); (1, plain "svg" (Some 0));
        (2, bar 10 None); (3, bar 20 (Some opacity_dimmed));
        (4, bar 30 None); (5, plain "div" (Some 0))];
     documentElement := 0 |}.

(** A host for the redraw: identifiers made of the category index,
    bars shown, and integer stand-ins for the scales of d3. *)
Definition visual : Visual := {| target := 0; visualSVG := [1]; showBars := false |}.

Definition options : VisualUpdateOptions (number:=Z) :=
  {| viewport_width := 100%Z; viewport_height := 50%Z;
     dataViews := Some
       [{| categorical := Some
             {| categories := Some [{| categoryValues := ["FR"; "DE"] |}];
                valueColumns := Some [{| columnValues := [3%Z; 5%Z] |}] |} |}] |}.

Definition no_data : VisualUpdateOptions (number:=Z) :=
  {| viewport_width := 100%Z; viewport_height := 50%Z; dataViews := Some [] |}.

Definition redraw (o : VisualUpdateOptions) (d : Document)
    : Visual * Document * completion :=
  update (λ _ i, [i]) (λ _, true) (λ l, head l) (λ _ _ _, Some 0%Z)
    (λ _ w, w) (λ _ h r, default 0%Z r) Z.sub ["mouseover"; "mouseout"]
    visual o d.

End Scenario.

(** * Properties *)

Section Properties.

Context {I : Type} `{SelectionId I} {number : Type}.

Local Abbreviation Doc := (Document (I:=I) (number:=number)).
Local Abbreviation Elem := (Element (I:=I) (number:=number)).
Local Abbreviation Datapoint := (IDatapoint (I:=I) (number:=number)).

Implicit Types (d : Doc) (e : Elem) (dp : Datapoint) (n : node)
  (sel : list node) (S : list I).

(** ** Stores and selections *)

Lemma Document_eq d d' :
  nodes d = nodes d' → documentElement d = documentElement d' → d = d'.
Proof. destruct d, d'; simpl; intros -> ->; reflexivity. Qed.

Lemma foldl_alter_lookup (f : Elem → Elem) sel (m : gmap node Elem) n :
  (∀ e, f (f e) = f e) →
  foldl (λ m n, alter f n m) m sel !! n
  = if bool_decide (n ∈ sel) then f <$> m !! n else m !! n.
Proof.
  intros Hf. revert m.
  induction sel as [|a sel IH]; intros m; simpl; [done|].
  rewrite IH. destruct (decide (n = a)) as [->|Hne].
  - rewrite lookup_alter_eq.
    rewrite (bool_decide_eq_true_2 (a ∈ a :: sel)) by left.
    case_bool_decide; [|done].
    destruct (m !! a); simpl; [by rewrite Hf|done].
  - rewrite lookup_alter_ne by done.
    destruct (decide (n ∈ sel)) as [Hin|Hnin].
    + rewrite !bool_decide_eq_true_2; [done|by right|done].
    + rewrite !bool_decide_eq_false_2; [done| |done].
      intros [?|?]%elem_of_cons; done.
Qed.

Lemma lookup_selection_alter (f : Elem → Elem) sel d n :
  (∀ e, f (f e) = f e) →
  nodes (selection_alter f sel d) !! n
  = if bool_decide (n ∈ sel) then f <$> nodes d !! n else nodes d !! n.
Proof. intros Hf. by apply foldl_alter_lookup. Qed.

Lemma set_style_idemp name v e :
  set_style name v (set_style name v e) = set_style name v e.
Proof. unfold set_style; simpl. by rewrite insert_insert_eq. Qed.

Lemma lookup_selection_style name v sel d n :
  nodes (selection_style name v sel d) !! n
  = if bool_decide (n ∈ sel) then set_style name v <$> nodes d !! n
    else nodes d !! n.
Proof. apply lookup_selection_alter, set_style_idemp. Qed.

(** ** The loop of [syncSelectionState] *)

Lemma emphasise_datum S e : datum (emphasise S e) = datum e.
Proof. unfold emphasise. by destruct (datum e) eqn:E. Qed.

Lemma emphasise_idemp S e : emphasise S (emphasise S e) = emphasise S e.
Proof.
  unfold emphasise. destruct (datum e) as [dp|] eqn:E; simpl; rewrite E; [|done].
  apply set_style_idemp.
Qed.

Lemma emphasise_set_style S e dp :
  datum e = Some dp →
  set_style "opacity" (emphasis S dp) (emphasise S e) = emphasise S e.
Proof. intros E. unfold emphasise. rewrite E. apply set_style_idemp. Qed.

(** Started in a store where the nodes of [X] already carry their
    emphasis, the loop ends in the store where those of [X] and the
    visited ones do. *)
Lemma each_sync_run S sel : ∀ (X : list node) d0 d,
  documentElement d = documentElement d0 →
  (∀ n, nodes d !! n = if bool_decide (n ∈ X)
                       then emphasise S <$> nodes d0 !! n
                       else nodes d0 !! n) →
  documentElement (selection_each (sync_callback S) sel d).1
    = documentElement d0
  ∧ (selection_each (sync_callback S) sel d).2 = each_completion d0 sel
  ∧ ∀ n, nodes (selection_each (sync_callback S) sel d).1 !! n
         = if bool_decide (n ∈ X ++ visited d0 sel)
           then emphasise S <$> nodes d0 !! n
           else nodes d0 !! n.
Proof.
  induction sel as [|a sel IH]; intros X d0 d Hroot Hd; simpl.
  { rewrite app_nil_r. done. }
  pose proof (Hd a) as Ha.
  destruct (nodes d0 !! a) as [e0|] eqn:E0.
  2: { assert (nodes d !! a = None) as -> by (by case_bool_decide).
       by apply IH. }
  assert (∃ e, nodes d !! a = Some e ∧ datum e = datum e0
               ∧ (e = e0 ∨ e = emphasise S e0)) as (e & -> & Hdat & He).
  { case_bool_decide; simpl in Ha; eexists; split; try done.
    - split; [apply emphasise_datum|by right].
    - split; [done|by left]. }
  rewrite Hdat. destruct (datum e0) as [dp|] eqn:Edp; simpl.
  2: { rewrite app_nil_r. done. }
  destruct (IH (X ++ [a]) d0
              (selection_style "opacity" (emphasis S dp) [a] d))
    as (IH1 & IH2 & IH3).
  - done.
  - intros n. rewrite lookup_selection_style.
    destruct (decide (n = a)) as [->|Hne].
    + rewrite (bool_decide_eq_true_2 (a ∈ [a])) by left.
      rewrite (bool_decide_eq_true_2 (a ∈ X ++ [a]))
        by (apply elem_of_app; right; left).
      rewrite E0, Ha. case_bool_decide; simpl; f_equal.
      * by apply emphasise_set_style.
      * unfold emphasise. by rewrite Edp.
    + rewrite (bool_decide_eq_false_2 (n ∈ [a]))
        by (by rewrite list_elem_of_singleton).
      rewrite Hd. rewrite (bool_decide_ext (n ∈ X) (n ∈ X ++ [a])); [done|].
      rewrite elem_of_app, list_elem_of_singleton. tauto.
  - split; [done|]. split; [done|]. intros n. rewrite IH3.
    by rewrite <- app_assoc.
Qed.

Lemma each_sync_lookup S sel d n :
  nodes (selection_each (sync_callback S) sel d).1 !! n
  = if bool_decide (n ∈ visited d sel)
    then emphasise S <$> nodes d !! n else nodes d !! n.
Proof.
  destruct (each_sync_run S sel [] d d) as (_ & _ & Hn); [done| |by rewrite Hn].
  intros n'. by rewrite bool_decide_eq_false_2 by apply not_elem_of_nil.
Qed.

Lemma each_sync_root S sel d :
  documentElement (selection_each (sync_callback S) sel d).1
  = documentElement d.
Proof.
  destruct (each_sync_run S sel [] d d) as (Hr & _ & _); [done| |done].
  intros n'. by rewrite bool_decide_eq_false_2 by apply not_elem_of_nil.
Qed.

Lemma each_sync_completion S sel d :
  (selection_each (sync_callback S) sel d).2 = each_completion d sel.
Proof.
  destruct (each_sync_run S sel [] d d) as (_ & Hc & _); [done| |done].
  intros n'. by rewrite bool_decide_eq_false_2 by apply not_elem_of_nil.
Qed.

Lemma each_sync_twice S sel d :
  selection_each (sync_callback S) sel
    (selection_each (sync_callback S) sel d).1
  = selection_each (sync_callback S) sel d.
Proof.
  destruct (each_sync_run S sel (visited d sel) d
              (selection_each (sync_callback S) sel d).1)
    as (Hr & Hc & Hn).
  { apply each_sync_root. }
  { apply each_sync_lookup. }
  apply injective_projections.
  - apply Document_eq.
    + apply map_eq. intros n. rewrite Hn, each_sync_lookup.
      rewrite (bool_decide_ext _ (n ∈ visited d sel)); [done|].
      rewrite elem_of_app. tauto.
    + by rewrite Hr, each_sync_root.
  - by rewrite Hc, each_sync_completion.
Qed.

(** ** Document lookups *)

(** What [querySelectorAll] reads of an element. *)
Local Abbreviation shape := (λ e : Elem, (parentNode e, classList e)).

Section same_shape.

Variables d d' : Doc.
Hypothesis Hroot : documentElement d' = documentElement d.
Hypothesis Hshape : ∀ n, shape <$> nodes d' !! n = shape <$> nodes d !! n.

Lemma shape_parent_of n : parent_of d' n = parent_of d n.
Proof.
  unfold parent_of. pose proof (Hshape n) as Hn.
  destruct (nodes d' !! n), (nodes d !! n); simpl in *; congruence.
Qed.

Lemma shape_dom : dom (nodes d') = dom (nodes d).
Proof.
  apply set_eq. intros n. rewrite !elem_of_dom.
  pose proof (Hshape n) as Hn.
  destruct (nodes d' !! n), (nodes d !! n); simpl in *;
    rewrite ?is_Some_alt; try done.
Qed.

Lemma shape_depth_bound : depth_bound d' = depth_bound d.
Proof. unfold depth_bound. by rewrite <- !size_dom, shape_dom. Qed.

Lemma shape_has_ancestor fuel a n :
  has_ancestor fuel d' a n = has_ancestor fuel d a n.
Proof.
  revert n. induction fuel as [|fuel IH]; intros n; simpl; [done|].
  rewrite shape_parent_of. destruct (parent_of d n); [|done].
  by rewrite IH.
Qed.

Lemma shape_in_scope scope n : in_scope d' scope n = in_scope d scope n.
Proof.
  destruct scope; simpl; unfold isConnected, contains;
    by rewrite shape_depth_bound, shape_has_ancestor, ?Hroot.
Qed.

Lemma shape_querySelectorAll scope s :
  querySelectorAll d' scope s = querySelectorAll d scope s.
Proof.
  unfold querySelectorAll. f_equal. apply set_eq. intros n.
  rewrite !elem_of_dom. unfold is_Some.
  setoid_rewrite map_lookup_filter_Some. simpl.
  pose proof (Hshape n) as Hn. rewrite shape_in_scope.
  assert (∀ e e', shape e' = shape e → matches s e' = matches s e) as Hm.
  { intros e e' [= _ Hc]. destruct s; simpl; by rewrite ?Hc. }
  destruct (nodes d' !! n) as [e'|], (nodes d !! n) as [e|];
    simpl in Hn; try done.
  assert (matches s e' = matches s e) by (apply Hm; congruence).
  split; intros (? & [= <-] & ?); eexists; (split; [done|]); congruence.
Qed.

End same_shape.

Lemma selection_style_shape name v sel d n :
  shape <$> nodes (selection_style name v sel d) !! n = shape <$> nodes d !! n.
Proof.
  rewrite lookup_selection_style. case_bool_decide; [|done].
  by destruct (nodes d !! n).
Qed.

Lemma selectAll_selection_style s name v sel d :
  selectAll s (selection_style name v sel d) = selectAll s d.
Proof.
  apply shape_querySelectorAll; [done|]. apply selection_style_shape.
Qed.

Lemma elem_of_querySelectorAll d scope s n :
  n ∈ querySelectorAll d scope s
  ↔ ∃ e, nodes d !! n = Some e ∧ in_scope d scope n = true
         ∧ matches s e = true.
Proof.
  unfold querySelectorAll. rewrite elem_of_elements, elem_of_dom.
  unfold is_Some. setoid_rewrite map_lookup_filter_Some. simpl.
  setoid_rewrite andb_true_iff. naive_solver.
Qed.

Lemma selection_style_twice name v sel d :
  selection_style name v sel (selection_style name v sel d)
  = selection_style name v sel d.
Proof.
  apply Document_eq; [|done]. apply map_eq. intros n.
  rewrite !lookup_selection_style. case_bool_decide; [|done].
  destruct (nodes d !! n); simpl; [|done]. by rewrite set_style_idemp.
Qed.

(** ** Facts about [syncSelectionState] *)

Lemma opacity_full_ne_dimmed : opacity_full ≠ opacity_dimmed.
Proof. discriminate. Qed.

Lemma existsb_includes S (id : I) :
  existsb (λ c, includes c id) S = true ↔ ∃ c, c ∈ S ∧ includes c id = true.
Proof.
  rewrite existsb_exists. by setoid_rewrite list_elem_of_In.
Qed.

Lemma emphasis_full S dp :
  emphasis S dp = opacity_full
  ↔ ∃ c, c ∈ S ∧ includes c (selectionId dp) = true.
Proof.
  rewrite <- existsb_includes. unfold emphasis.
  destruct (existsb _ S); split; done.
Qed.

Lemma emphasis_dimmed S dp :
  emphasis S dp = opacity_dimmed
  ↔ ¬ ∃ c, c ∈ S ∧ includes c (selectionId dp) = true.
Proof.
  rewrite <- existsb_includes. unfold emphasis.
  destruct (existsb _ S); split; done.
Qed.

Lemma emphasis_two_valued S dp :
  emphasis S dp = opacity_full ∨ emphasis S dp = opacity_dimmed.
Proof. unfold emphasis. destruct (existsb _ S); auto. Qed.

Lemma emphasis_same_members S1 S2 dp :
  (∀ c, c ∈ S1 ↔ c ∈ S2) → emphasis S1 dp = emphasis S2 dp.
Proof.
  intros Hmem. unfold emphasis.
  assert (existsb (λ c, includes c (selectionId dp)) S1
          = existsb (λ c, includes c (selectionId dp)) S2) as ->; [|done].
  apply eq_true_iff_eq. rewrite !existsb_includes.
  by setoid_rewrite Hmem.
Qed.

Lemma visited_marks d sel :
  Forall (is_mark d) sel → visited d sel = sel ∧ each_completion d sel = Normal.
Proof.
  induction 1 as [|n sel [dp Hn] _ [IH1 IH2]]; simpl; [done|].
  unfold datum_of in Hn. destruct (nodes d !! n) as [e|]; [|done].
  simpl in Hn. rewrite Hn. by rewrite IH1.
Qed.

Lemma visited_of_normal d sel n :
  each_completion d sel = Normal → n ∈ sel → is_Some (nodes d !! n) →
  n ∈ visited d sel.
Proof.
  intros Hc Hin Hn. induction sel as [|a sel IH]; simpl in *.
  { by apply not_elem_of_nil in Hin. }
  apply elem_of_cons in Hin as [->|Hin].
  - destruct Hn as [e He]. rewrite He in *. destruct (datum e); [left|done].
  - destruct (nodes d !! a) as [e|]; [|by apply IH].
    destruct (datum e); [|done]. right. by apply IH.
Qed.

Lemma length_eqb_0 {A} (l : list A) :
  (length l =? 0)%nat = bool_decide (l = []).
Proof. by destruct l. Qed.

(** Every node is left as it was or has had one of the two emphasis
    values written to its opacity style. *)
Lemma sync_lookup bs ids d n :
  nodes (syncSelectionState bs ids d).1 !! n = nodes d !! n
  ∨ ∃ e v, nodes d !! n = Some e
           ∧ (v = opacity_full ∨ v = opacity_dimmed)
           ∧ nodes (syncSelectionState bs ids d).1 !! n
             = Some (set_style "opacity" v e).
Proof.
  destruct bs as [M|], ids as [S|]; try (by left).
  unfold syncSelectionState. destruct (length S =? 0)%nat; cbn [fst].
  - rewrite lookup_selection_style. case_bool_decide; [|by left].
    destruct (nodes d !! n) as [e|]; [|by left].
    right. exists e, opacity_full. auto.
  - rewrite each_sync_lookup. case_bool_decide; [|by left].
    destruct (nodes d !! n) as [e|]; [|by left]. simpl.
    unfold emphasise. destruct (datum e) as [dp|]; [|by left].
    right. exists e, (emphasis S dp).
    split; [done|]. split; [apply emphasis_two_valued|done].
Qed.

Lemma sync_root bs ids d :
  documentElement (syncSelectionState bs ids d).1 = documentElement d.
Proof.
  destruct bs as [M|], ids as [S|]; try done.
  unfold syncSelectionState.
  destruct (length S =? 0)%nat; cbn [fst]; [done|apply each_sync_root].
Qed.

Lemma without_opacity_set_style v e :
  without_opacity (set_style "opacity" v e) = without_opacity e.
Proof. unfold without_opacity; simpl. by rewrite delete_insert_eq. Qed.

(** ** The claims about [syncSelectionState] *)

(** C1. With a non-empty selection set, the call on a collection of
    marks ends normally, and a mark of the collection is fully opaque
    exactly when some identifier of the selection set includes the
    mark's identifier; otherwise it is dimmed to 0.5. *)
Theorem sync_opaque_iff_included M S d n dp :
  S ≠ [] → Forall (is_mark d) M → n ∈ M → datum_of d n = Some dp →
  (syncSelectionState (Some M) (Some S) d).2 = Normal
  ∧ (style_of (syncSelectionState (Some M) (Some S) d).1 n "opacity"
       = Some opacity_full
     ↔ ∃ c, c ∈ S ∧ includes c (selectionId dp) = true)
  ∧ (style_of (syncSelectionState (Some M) (Some S) d).1 n "opacity"
       = Some opacity_dimmed
     ↔ ¬ ∃ c, c ∈ S ∧ includes c (selectionId dp) = true).
Proof.
  intros HS HM Hn Hdp. unfold syncSelectionState.
  rewrite length_eqb_0, bool_decide_eq_false_2 by done.
  destruct (visited_marks d M HM) as [Hv Hc].
  rewrite each_sync_completion. split; [done|].
  unfold style_of. rewrite each_sync_lookup, Hv.
  rewrite bool_decide_eq_true_2 by done.
  unfold datum_of in Hdp. destruct (nodes d !! n) as [e|]; [|done].
  simpl in *. unfold emphasise. rewrite Hdp. simpl.
  rewrite lookup_insert_eq.
  rewrite <- emphasis_dimmed, <- emphasis_full.
  split; split; congruence.
Qed.

(** C2. With the empty selection set, the call ends normally and every
    mark of a collection of rendered marks is fully opaque afterwards,
    whatever its opacity was before. *)
Theorem sync_empty_resets M d n :
  Forall (rendered_mark d) M → n ∈ M →
  (syncSelectionState (Some M) (Some []) d).2 = Normal
  ∧ style_of (syncSelectionState (Some M) (Some []) d).1 n "opacity"
    = Some opacity_full.
Proof.
  intros HM Hn. split; [done|].
  rewrite Forall_forall in HM.
  destruct (HM n Hn) as (e & dp & He & _ & Hbar & Hconn).
  unfold syncSelectionState. cbn [length Nat.eqb fst].
  unfold style_of. rewrite lookup_selection_style.
  rewrite bool_decide_eq_true_2.
  - rewrite He. simpl. apply lookup_insert_eq.
  - apply elem_of_querySelectorAll. exists e.
    split; [done|]. split; [done|]. by apply bool_decide_eq_true_2.
Qed.

(** C3. With an undefined mark collection or an undefined selection set
    the call ends normally and returns the store it was given. *)
Theorem sync_undefined_noop (bs : option (list node)) (ids : option (list I)) d :
  syncSelectionState None ids d = (d, Normal)
  ∧ syncSelectionState bs None d = (d, Normal).
Proof. split; [done|by destruct bs]. Qed.

(** C4. With the empty selection set the result does not depend on the
    first argument: the opacity of every element that the document
    lookup [".bar"] finds is set to 1, and every other element, in the
    first argument or not, is left as it was. *)
Theorem sync_empty_ambient M M' d n :
  syncSelectionState (Some M) (Some []) d
    = syncSelectionState (Some M') (Some []) d
  ∧ (syncSelectionState (Some M) (Some []) d).2 = Normal
  ∧ nodes (syncSelectionState (Some M) (Some []) d).1 !! n
    = if bool_decide (rendered_bar d n)
      then set_style "opacity" opacity_full <$> nodes d !! n
      else nodes d !! n.
Proof.
  split; [done|]. split; [done|].
  unfold syncSelectionState. cbn [length Nat.eqb fst].
  apply lookup_selection_style.
Qed.

(** C5. Calling twice with the same defined arguments gives the same
    store and the same completion as calling once. *)
Theorem sync_idempotent M S d :
  syncSelectionState (Some M) (Some S)
    (syncSelectionState (Some M) (Some S) d).1
  = syncSelectionState (Some M) (Some S) d.
Proof.
  unfold syncSelectionState. destruct (length S =? 0)%nat; cbn [fst].
  - by rewrite selectAll_selection_style, selection_style_twice.
  - apply each_sync_twice.
Qed.

(** C6. A call with defined arguments changes nothing but the opacity
    style: the root, the set of elements and, on every element, the
    datum (country, value, selection identifier), tag, classes, parent,
    attributes, listeners and all other styles are as before. *)
Theorem sync_frame M S d n :
  documentElement (syncSelectionState (Some M) (Some S) d).1
    = documentElement d
  ∧ without_opacity <$> nodes (syncSelectionState (Some M) (Some S) d).1 !! n
    = without_opacity <$> nodes d !! n
  ∧ datum_of (syncSelectionState (Some M) (Some S) d).1 n = datum_of d n.
Proof.
  split; [apply sync_root|]. unfold datum_of.
  destruct (sync_lookup (Some M) (Some S) d n) as [->|(e & v & -> & _ & ->)];
    [done|].
  simpl. by rewrite without_opacity_set_style.
Qed.

(** C7. Two calls that end normally with the same selection set, on any
    two stores and mark collections, give the same opacity to two marks
    they write to whenever the marks carry the same identifier. *)
Theorem sync_pure_in_identifier S M1 M2 (d1 d2 : Doc) n1 n2 dp1 dp2 :
  datum_of d1 n1 = Some dp1 → datum_of d2 n2 = Some dp2 →
  selectionId dp1 = selectionId dp2 →
  updates M1 S d1 n1 → updates M2 S d2 n2 →
  (syncSelectionState (Some M1) (Some S) d1).2 = Normal →
  (syncSelectionState (Some M2) (Some S) d2).2 = Normal →
  style_of (syncSelectionState (Some M1) (Some S) d1).1 n1 "opacity"
  = style_of (syncSelectionState (Some M2) (Some S) d2).1 n2 "opacity"
  ∧ is_Some (style_of (syncSelectionState (Some M1) (Some S) d1).1 n1
               "opacity").
Proof.
  intros Hdp1 Hdp2 Hid Hu1 Hu2.
  assert (∀ M d n dp, datum_of d n = Some dp → updates M S d n →
            (syncSelectionState (Some M) (Some S) d).2 = Normal →
            style_of (syncSelectionState (Some M) (Some S) d).1 n "opacity"
            = Some (match S with
                    | [] => opacity_full
                    | _ => if existsb (λ c, includes c (selectionId dp)) S
                           then opacity_full else opacity_dimmed
                    end)) as Hone.
  { clear. intros M d n dp Hdp Hu. unfold datum_of in Hdp.
    destruct (nodes d !! n) as [e|] eqn:En; [simpl in Hdp|done].
    unfold syncSelectionState, style_of. destruct S as [|c S]; cbn [length Nat.eqb fst snd].
    - intros _. rewrite lookup_selection_style.
      rewrite bool_decide_eq_true_2 by done.
      rewrite En. simpl. apply lookup_insert_eq.
    - rewrite each_sync_completion. intros Hc.
      rewrite each_sync_lookup.
      rewrite bool_decide_eq_true_2 by (by apply visited_of_normal).
      rewrite En. simpl. unfold emphasise. rewrite Hdp. simpl.
      apply lookup_insert_eq. }
  intros Hc1 Hc2.
  rewrite (Hone M1 d1 n1 dp1), (Hone M2 d2 n2 dp2) by done.
  rewrite Hid. split; [done|eauto].
Qed.

(** C8. After any call, every element is the one it was before or has
    1 or 0.5 as its opacity style: the call writes no other value. *)
Theorem sync_two_valued (bs : option (list node)) (ids : option (list I)) d n :
  nodes (syncSelectionState bs ids d).1 !! n = nodes d !! n
  ∨ style_of (syncSelectionState bs ids d).1 n "opacity" = Some opacity_full
  ∨ style_of (syncSelectionState bs ids d).1 n "opacity" = Some opacity_dimmed.
Proof.
  destruct (sync_lookup bs ids d n) as [?|(e & v & _ & Hv & Hn)]; [by left|].
  right. unfold style_of. rewrite Hn. simpl. rewrite lookup_insert_eq.
  destruct Hv as [->| ->]; auto.
Qed.

(** C9. Two non-empty selection sets with the same members, in any order
    and with any repetition, give the same store and completion. *)
Theorem sync_selection_as_set M S1 S2 d :
  S1 ≠ [] → S2 ≠ [] → (∀ c, c ∈ S1 ↔ c ∈ S2) →
  syncSelectionState (Some M) (Some S1) d
  = syncSelectionState (Some M) (Some S2) d.
Proof.
  intros H1 H2 Hmem. unfold syncSelectionState.
  rewrite !length_eqb_0, !bool_decide_eq_false_2 by done.
  apply injective_projections.
  - apply Document_eq; [|by rewrite !each_sync_root].
    apply map_eq. intros n. rewrite !each_sync_lookup.
    case_bool_decide; [|done]. destruct (nodes d !! n) as [e|]; [|done].
    simpl. unfold emphasise. destruct (datum e); [|done].
    by rewrite (emphasis_same_members S1 S2).
  - by rewrite !each_sync_completion.
Qed.

(** ** More on [syncSelectionState] and its caller *)

Lemma visited_subseteq d sel n : n ∈ visited d sel → n ∈ sel.
Proof.
  induction sel as [|a sel IH]; simpl; [done|].
  destruct (nodes d !! a) as [e|]; [|by right; apply IH].
  destruct (datum e); [|by intros ?%not_elem_of_nil].
  intros [->|?]%elem_of_cons; [left|right; by apply IH].
Qed.

(** The loop looks at the store only through the data of the elements. *)
Lemma visited_same_data d d' sel :
  (∀ n, datum <$> nodes d' !! n = datum <$> nodes d !! n) →
  visited d' sel = visited d sel
  ∧ each_completion d' sel = each_completion d sel.
Proof.
  intros Hdat. induction sel as [|a sel [IH1 IH2]]; simpl; [done|].
  pose proof (Hdat a) as Ha.
  destruct (nodes d' !! a) as [e'|], (nodes d !! a) as [e|];
    simpl in Ha; try done.
  injection Ha as ->. destruct (datum e); [by rewrite IH1|done].
Qed.

Lemma sync_datum bs ids d n :
  datum <$> nodes (syncSelectionState bs ids d).1 !! n
  = datum <$> nodes d !! n.
Proof.
  destruct (sync_lookup bs ids d n) as [->|(e & v & -> & _ & ->)]; done.
Qed.

Lemma sync_shape bs ids d n :
  (λ e : Elem, (parentNode e, classList e))
    <$> nodes (syncSelectionState bs ids d).1 !! n
  = (λ e : Elem, (parentNode e, classList e)) <$> nodes d !! n.
Proof.
  destruct (sync_lookup bs ids d n) as [->|(e & v & -> & _ & ->)]; done.
Qed.

Lemma selectAll_sync s bs ids d :
  selectAll s (syncSelectionState bs ids d).1 = selectAll s d.
Proof.
  apply shape_querySelectorAll; [apply sync_root|]. apply sync_shape.
Qed.

Lemma emphasise_overrides S1 S2 e :
  emphasise S2 (emphasise S1 e) = emphasise S2 e.
Proof.
  unfold emphasise at 2. destruct (datum e) as [dp|] eqn:E; [|done].
  unfold emphasise. simpl. rewrite E.
  unfold set_style; simpl. by rewrite insert_insert_eq.
Qed.

Lemma sync_nonempty_lookup M S d n :
  S ≠ [] →
  nodes (syncSelectionState (Some M) (Some S) d).1 !! n
  = if bool_decide (n ∈ visited d M) then emphasise S <$> nodes d !! n
    else nodes d !! n.
Proof.
  intros HS. unfold syncSelectionState.
  rewrite length_eqb_0, bool_decide_eq_false_2 by done.
  apply each_sync_lookup.
Qed.

Lemma sync_nonempty_completion M S d :
  S ≠ [] →
  (syncSelectionState (Some M) (Some S) d).2 = each_completion d M.
Proof.
  intros HS. unfold syncSelectionState.
  rewrite length_eqb_0, bool_decide_eq_false_2 by done.
  apply each_sync_completion.
Qed.

(** With a non-empty selection set only elements of the first argument
    are written to. *)
Theorem sync_leaves_others M S d n :
  S ≠ [] → n ∉ M →
  nodes (syncSelectionState (Some M) (Some S) d).1 !! n = nodes d !! n.
Proof.
  intros HS Hn. rewrite sync_nonempty_lookup by done.
  rewrite bool_decide_eq_false_2; [done|].
  intros Hv. by apply Hn, (visited_subseteq d).
Qed.

Lemma visited_app_missing d M1 n M2 :
  Forall (is_mark d) M1 → is_Some (nodes d !! n) → datum_of d n = None →
  visited d (M1 ++ n :: M2) = M1
  ∧ each_completion d (M1 ++ n :: M2) = TypeError.
Proof.
  intros HM [e He] Hdat. unfold datum_of in Hdat. rewrite He in Hdat.
  simpl in Hdat.
  induction HM as [|a M1 [dp Ha] _ [IH1 IH2]]; simpl.
  { by rewrite He, Hdat. }
  unfold datum_of in Ha. destruct (nodes d !! a) as [ea|]; [|done].
  simpl in Ha. rewrite Ha. by rewrite IH1.
Qed.

(** At the first element of the first argument that has no datum the
    call throws; the marks before it are updated as if the collection
    ended there, the elements after it are not reached. *)
Theorem sync_throws_at_missing_datum M1 n M2 S d :
  S ≠ [] → Forall (is_mark d) M1 →
  is_Some (nodes d !! n) → datum_of d n = None →
  syncSelectionState (Some (M1 ++ n :: M2)) (Some S) d
  = ((syncSelectionState (Some M1) (Some S) d).1, TypeError).
Proof.
  intros HS HM Hn Hdat.
  destruct (visited_app_missing d M1 n M2 HM Hn Hdat) as [Hv Hc].
  destruct (visited_marks d M1 HM) as [Hv1 _].
  apply injective_projections; cbn [fst snd].
  - apply Document_eq; [|by rewrite !sync_root].
    apply map_eq. intros m. rewrite !sync_nonempty_lookup by done.
    by rewrite Hv, Hv1.
  - by rewrite sync_nonempty_completion.
Qed.

(** On collections of marks neither the order of the marks nor their
    repetition matters. *)
Theorem sync_marks_as_set M1 M2 S d :
  Forall (is_mark d) M1 → Forall (is_mark d) M2 →
  (∀ n, n ∈ M1 ↔ n ∈ M2) →
  syncSelectionState (Some M1) (Some S) d
  = syncSelectionState (Some M2) (Some S) d.
Proof.
  intros HM1 HM2 Hmem. destruct S as [|c S]; [done|].
  destruct (visited_marks d M1 HM1) as [Hv1 Hc1].
  destruct (visited_marks d M2 HM2) as [Hv2 Hc2].
  apply injective_projections.
  - apply Document_eq; [|by rewrite !sync_root].
    apply map_eq. intros n. rewrite !sync_nonempty_lookup by done.
    rewrite Hv1, Hv2. by rewrite (bool_decide_ext _ _ (Hmem n)).
  - rewrite !sync_nonempty_completion by done. by rewrite Hc1, Hc2.
Qed.

(** With non-empty selection sets a later call on the same collection
    overrides an earlier one: nothing of the earlier selection is left. *)
Theorem sync_later_overrides M S1 S2 d :
  S1 ≠ [] → S2 ≠ [] →
  syncSelectionState (Some M) (Some S2)
    (syncSelectionState (Some M) (Some S1) d).1
  = syncSelectionState (Some M) (Some S2) d.
Proof.
  intros H1 H2.
  destruct (visited_same_data d (syncSelectionState (Some M) (Some S1) d).1 M)
    as [Hv Hc]; [intros n; apply sync_datum|].
  apply injective_projections.
  - apply Document_eq; [|by rewrite !sync_root].
    apply map_eq. intros n. rewrite !sync_nonempty_lookup by done.
    rewrite Hv. case_bool_decide; [|done].
    destruct (nodes d !! n); simpl; [|done].
    by rewrite emphasise_overrides.
  - rewrite !sync_nonempty_completion by done. done.
Qed.

Lemma click_emphasis_overrides S1 S2 e :
  is_Some (datum e) →
  click_emphasis S2 (click_emphasis S1 e) = click_emphasis S2 e.
Proof.
  intros [dp Hdp].
  assert (∀ v w (e' : Elem),
            set_style "opacity" v (set_style "opacity" w e')
            = set_style "opacity" v e') as Hset.
  { intros. unfold set_style; simpl. by rewrite insert_insert_eq. }
  destruct S1 as [|c1 S1], S2 as [|c2 S2]; cbn [click_emphasis].
  - apply Hset.
  - unfold emphasise. simpl. rewrite Hdp. apply Hset.
  - unfold emphasise. rewrite Hdp. apply Hset.
  - apply emphasise_overrides.
Qed.

Lemma is_mark_sync bs ids d n :
  is_mark (syncSelectionState bs ids d).1 n ↔ is_mark d n.
Proof.
  unfold is_mark, datum_of. pose proof (sync_datum bs ids d n) as Hn.
  destruct (nodes (syncSelectionState bs ids d).1 !! n), (nodes d !! n);
    simpl in *; try done.
  by injection Hn as ->.
Qed.

(** What a resolved click does when all rendered bars are marks. *)
Lemma click_resolved_lookup S d :
  Forall (is_mark d) (selectAll (ByClass "bar") d) →
  (click_resolved (Some S) d).2 = Normal
  ∧ ∀ n, nodes (click_resolved (Some S) d).1 !! n
         = if bool_decide (rendered_bar d n)
           then click_emphasis S <$> nodes d !! n else nodes d !! n.
Proof.
  intros HM. unfold click_resolved. destruct S as [|c S].
  - split; [done|]. intros n. apply lookup_selection_style.
  - destruct (visited_marks d _ HM) as [Hv Hc].
    rewrite sync_nonempty_completion by done. split; [done|].
    intros n. rewrite sync_nonempty_lookup by done. by rewrite Hv.
Qed.

(** After a resolved click on a document whose rendered bars are marks,
    every rendered bar has an emphasis of its own, 1 or 0.5, and nothing
    else has been touched. *)
Theorem click_resolved_emphasises_bars S d n :
  Forall (is_mark d) (selectAll (ByClass "bar") d) →
  (click_resolved (Some S) d).2 = Normal
  ∧ if bool_decide (rendered_bar d n)
    then style_of (click_resolved (Some S) d).1 n "opacity" = Some opacity_full
         ∨ style_of (click_resolved (Some S) d).1 n "opacity"
           = Some opacity_dimmed
    else nodes (click_resolved (Some S) d).1 !! n = nodes d !! n.
Proof.
  intros HM. destruct (click_resolved_lookup S d HM) as [Hc Hn].
  split; [done|]. unfold style_of. rewrite Hn.
  case_bool_decide as Hbar; [|done].
  rewrite Forall_forall in HM. destruct (HM n Hbar) as [dp Hdp].
  unfold datum_of in Hdp. destruct (nodes d !! n) as [e|]; [|done].
  simpl in *. destruct S as [|c S]; cbn [click_emphasis].
  - left. apply lookup_insert_eq.
  - unfold emphasise. rewrite Hdp. simpl. rewrite lookup_insert_eq.
    destruct (emphasis_two_valued (c :: S) dp) as [->| ->]; auto.
Qed.

(** The last resolved click wins: on a document whose rendered bars are
    marks, a click resolved after another leaves the store that it
    leaves on its own, also when either selection set is empty. *)
Theorem click_last_wins S1 S2 d :
  Forall (is_mark d) (selectAll (ByClass "bar") d) →
  click_resolved (Some S2) (click_resolved (Some S1) d).1
  = click_resolved (Some S2) d.
Proof.
  intros HM. destruct (click_resolved_lookup S1 d HM) as [_ H1].
  destruct (click_resolved_lookup S2 d HM) as [Hc2 H2].
  assert (selectAll (ByClass "bar") (click_resolved (Some S1) d).1
          = selectAll (ByClass "bar") d) as Hbars by apply selectAll_sync.
  destruct (click_resolved_lookup S2 (click_resolved (Some S1) d).1)
    as [Hc2' H2'].
  { rewrite Hbars. eapply Forall_impl; [exact HM|].
    intros n Hn. by apply is_mark_sync. }
  apply injective_projections; [|by rewrite Hc2, Hc2'].
  apply Document_eq.
  - apply map_eq. intros n. rewrite H2', H2, H1.
    rewrite (bool_decide_ext (rendered_bar _ n) (rendered_bar d n))
      by (unfold rendered_bar; by rewrite Hbars).
    case_bool_decide as Hbar; [|done].
    rewrite Forall_forall in HM. destruct (HM n Hbar) as [dp Hdp].
    unfold datum_of in Hdp. destruct (nodes d !! n) as [e|]; simpl; [|done].
    rewrite click_emphasis_overrides; [done|by exists dp].
  - unfold click_resolved. by rewrite !sync_root.
Qed.

(** ** Redraw *)

Section Redraw.

Variable createSelectionId : DataViewCategoryColumn → nat → I.
Variable populate_showBars : option (list (DataView (number:=number))) → bool.
Variable d3_max : list number → option number.
Variable scaleBand : list string → number → string → option number.
Variable bandwidth : list string → number → number.
Variable scaleLinear : option number → number → option number → number.
Variable number_sub : number → number → number.
Variable tooltip_events : list string.

Local Abbreviation update' :=
  (update createSelectionId populate_showBars d3_max scaleBand bandwidth
     scaleLinear number_sub tooltip_events).
Local Abbreviation draw_bar' := (draw_bar createSelectionId number_sub).

(** All of an element but its listeners. *)
Local Abbreviation content :=
  (λ e : Elem, (tagName e, classList e, parentNode e, datum e, style e,
                attributes e)).

Lemma selection_alter_inserted (f : Elem → Elem) n e m r :
  selection_alter f [n] {| nodes := <[n:=e]> m; documentElement := r |}
  = {| nodes := <[n:=f e]> m; documentElement := r |}.
Proof.
  unfold selection_alter, with_nodes; simpl. by rewrite alter_insert_eq.
Qed.

Lemma selection_append_one tag p pe d :
  nodes d !! p = Some pe →
  selection_append tag [p] d
  = ({| nodes := <[fresh (dom (nodes d)) :=
                     match datum pe with
                     | Some dp => set_datum dp (createElement tag p)
                     | None => createElement tag p
                     end]> (nodes d);
        documentElement := documentElement d |},
     [fresh (dom (nodes d))]).
Proof. intros Hp. simpl. by rewrite Hp. Qed.

Lemma selection_data_one dp n e m r :
  selection_data [dp] [n] {| nodes := <[n:=e]> m; documentElement := r |}
  = ({| nodes := <[n:=set_datum dp e]> m; documentElement := r |}, [n]).
Proof.
  cbn [selection_data]. rewrite selection_alter_inserted.
  cbn [nodes]. by rewrite lookup_insert_eq.
Qed.

Lemma draw_bar_inserts v svg pe vh bw xs ys cat0 revenue c k d :
  visualSVG v = [svg] → nodes d !! svg = Some pe →
  ∃ e, draw_bar' v vh bw xs ys cat0 revenue c k d
       = {| nodes := <[fresh (dom (nodes d)) := e]> (nodes d);
            documentElement := documentElement d |}
       ∧ drawn_bar createSelectionId v svg cat0 revenue c k e.
Proof.
  intros Hv Hsvg. unfold draw_bar.
  rewrite Hv, (selection_append_one _ _ _ _ Hsvg).
  unfold selection_classed, selection_attr, selection_style, selection_on.
  cbv beta iota zeta.
  rewrite selection_alter_inserted, selection_data_one.
  cbv beta iota zeta. rewrite !selection_alter_inserted.
  eexists. split; [reflexivity|].
  unfold drawn_bar. by destruct (datum pe).
Qed.

(** The loop over the categories creates one new element per category
    and touches no other. *)
Lemma forEach_draw_bar v svg vh bw xs ys cat0 revenue countries :
  visualSVG v = [svg] → ∀ i d, is_Some (nodes d !! svg) →
  ∃ ns : list node,
    length ns = length countries ∧ NoDup ns
    ∧ (∀ n, n ∈ ns → n ∉ dom (nodes d))
    ∧ documentElement
        (forEach_from (draw_bar' v vh bw xs ys cat0 revenue) countries i d)
      = documentElement d
    ∧ (∀ n, n ∉ ns →
         nodes (forEach_from (draw_bar' v vh bw xs ys cat0 revenue)
                  countries i d) !! n = nodes d !! n)
    ∧ (∀ j n, ns !! j = Some n →
         ∃ e c, countries !! j = Some c
           ∧ nodes (forEach_from (draw_bar' v vh bw xs ys cat0 revenue)
                      countries i d) !! n = Some e
           ∧ drawn_bar createSelectionId v svg cat0 revenue c (i + j) e).
Proof.
  intros Hv. induction countries as [|c countries IH]; intros i d Hsvg.
  { exists []. simpl. repeat split; try done.
    - constructor.
    - intros n Hn. by apply not_elem_of_nil in Hn. }
  destruct Hsvg as [pe Hsvg].
  destruct (draw_bar_inserts v svg pe vh bw xs ys cat0 revenue c i d Hv Hsvg)
    as (e & Hdraw & He).
  set (n0 := fresh (dom (nodes d))) in *.
  assert (n0 ∉ dom (nodes d)) as Hfresh by apply is_fresh.
  assert (n0 ≠ svg) as Hne.
  { intros ->. apply Hfresh, elem_of_dom. eauto. }
  cbn [forEach_from]. rewrite Hdraw.
  set (d1 := {| nodes := <[n0:=e]> (nodes d);
                documentElement := documentElement d |}).
  destruct (IH (S i) d1) as (ns & Hlen & Hnd & Hnew & Hroot & Hold & Hbars).
  { subst d1; simpl. rewrite lookup_insert_ne by done. eauto. }
  assert (∀ n, n ∈ ns → n ≠ n0 ∧ n ∉ dom (nodes d)) as Hnew'.
  { intros n Hn. specialize (Hnew n Hn). subst d1; simpl in Hnew.
    rewrite dom_insert in Hnew. set_solver. }
  exists (n0 :: ns). split; [simpl; by rewrite Hlen|].
  split; [constructor; [|done]; intros Hn; by apply Hnew' in Hn as [? _]|].
  split.
  { intros n [->|Hn]%elem_of_cons; [done|]. by apply Hnew'. }
  split; [done|]. split.
  - intros n Hn. apply not_elem_of_cons in Hn as [Hn0 Hn].
    rewrite Hold by done. subst d1; simpl. by rewrite lookup_insert_ne.
  - intros [|j] n Hj; simpl in Hj.
    + injection Hj as <-. exists e, c. split; [done|].
      rewrite Nat.add_0_r. split; [|done].
      rewrite Hold. { subst d1; simpl. apply lookup_insert_eq. }
      intros Hn. by apply Hnew' in Hn as [? _].
    + destruct (Hbars j n Hj) as (e' & c' & Hc' & Hn & Hd).
      exists e', c'. rewrite Nat.add_succ_r. done.
Qed.

(** Registering listeners leaves the content of every element as is. *)
Lemma add_listener_idemp type (e : Elem) :
  add_listener type (add_listener type e) = add_listener type e.
Proof.
  unfold add_listener; simpl. f_equal.
  by rewrite (assoc_L (∪)), union_idemp_L.
Qed.

Lemma selection_on_content type sel d n :
  content <$> nodes (selection_on type sel d) !! n = content <$> nodes d !! n.
Proof.
  unfold selection_on.
  rewrite lookup_selection_alter by apply add_listener_idemp.
  case_bool_decide; [|done]. by destruct (nodes d !! n).
Qed.

Lemma addTooltip_content sel d n :
  content <$> nodes (addTooltip tooltip_events sel d) !! n
  = content <$> nodes d !! n.
Proof.
  unfold addTooltip. revert d.
  induction tooltip_events as [|type l IH]; intros d; simpl; [done|].
  by rewrite IH, selection_on_content.
Qed.

Lemma handleContextMenu_content d n :
  content <$> nodes (handleContextMenu d) !! n = content <$> nodes d !! n.
Proof. apply selection_on_content. Qed.

(** Removal detaches the selected elements and only them. *)
Lemma detach_idemp (e : Elem) : detach (detach e) = detach e.
Proof. done. Qed.

Lemma lookup_selection_remove sel d n :
  nodes (selection_remove sel d) !! n
  = if bool_decide (n ∈ sel) then detach <$> nodes d !! n
    else nodes d !! n.
Proof. apply lookup_selection_alter, detach_idemp. Qed.

Lemma child_in_descendants d svg n :
  parent_of d n = Some svg → n ∈ querySelectorAll d (Some svg) Universal.
Proof.
  intros Hp. apply elem_of_querySelectorAll.
  unfold parent_of in Hp. destruct (nodes d !! n) as [e|] eqn:En; [|done].
  exists e. split; [done|]. split; [|done].
  unfold in_scope, contains, depth_bound. cbn [has_ancestor].
  unfold parent_of. rewrite En. simpl in *. rewrite Hp.
  by rewrite bool_decide_eq_true_2.
Qed.

Lemma content_projections d d' n :
  content <$> nodes d' !! n = content <$> nodes d !! n →
  parent_of d' n = parent_of d n ∧ datum_of d' n = datum_of d n
  ∧ classList <$> nodes d' !! n = classList <$> nodes d !! n
  ∧ ∀ name, style_of d' n name = style_of d n name.
Proof.
  unfold parent_of, datum_of, style_of.
  destruct (nodes d' !! n), (nodes d !! n); simpl; intros [=]; try done.
  repeat split; congruence.
Qed.

Lemma update_content v options d n :
  content <$> nodes (update' v options d).1.2 !! n
  = content <$>
      match read_dataViews options with
      | None =>
          nodes (selection_remove
                   (n ← visualSVG v; querySelectorAll d (Some n) Universal)
                   d) !! n
      | Some (category0, countries, revenue) =>
          nodes (forEach_from
                   (draw_bar' {| target := target v; visualSVG := visualSVG v;
                                 showBars := populate_showBars (dataViews options) |}
                      (viewport_height options)
                      (bandwidth countries (viewport_width options))
                      (scaleBand countries (viewport_width options))
                      (scaleLinear (d3_max revenue) (viewport_height options))
                      category0 revenue)
                   countries 0
                   (selection_remove
                      (n ← visualSVG v; querySelectorAll d (Some n) Universal)
                      d)) !! n
      end.
Proof.
  unfold update. cbv zeta.
  destruct (read_dataViews options) as [[[cat0 countries] revenue]|];
    cbn [fst snd]; [|done].
  by rewrite handleContextMenu_content, addTooltip_content.
Qed.

(** The constructor leaves [visualSVG] as the selection of one new
    element of the store, a child of the target. *)
Lemma constructor_visualSVG element d :
  is_Some (nodes d !! element) →
  ∃ svg, visualSVG (constructor element d).1 = [svg]
    ∧ (svg ∉ dom (nodes d))
    ∧ parent_of (constructor element d).2 svg = Some element
    ∧ classList <$> nodes (constructor element d).2 !! svg
      = Some ["visualSVG"].
Proof.
  intros [pe Hpe]. unfold constructor.
  rewrite (selection_append_one _ _ _ _ Hpe). cbv beta iota zeta.
  unfold selection_classed. rewrite selection_alter_inserted.
  exists (fresh (dom (nodes d))). cbn [fst snd visualSVG].
  split; [done|]. split; [apply is_fresh|].
  unfold parent_of. cbn [nodes]. rewrite lookup_insert_eq.
  by destruct (datum pe).
Qed.

Lemma removed_not_child d svg sel n :
  (∀ m, parent_of d m = Some svg → m ∈ sel) →
  parent_of (selection_remove sel d) n ≠ Some svg.
Proof.
  intros Hsel. unfold parent_of at 1. rewrite lookup_selection_remove.
  case_bool_decide as Hn.
  - by destruct (nodes d !! n).
  - intros Hp. by apply Hn, Hsel.
Qed.

Lemma dom_selection_remove sel d :
  dom (nodes (selection_remove sel d)) = dom (nodes d).
Proof.
  apply set_eq. intros n. rewrite !elem_of_dom, lookup_selection_remove.
  case_bool_decide; [|done]. by rewrite fmap_is_Some.
Qed.

(** C10. A redraw detaches every element that was below the svg and
    ends with nothing under the svg but elements it has created, none of
    which has an opacity style; when the host's data can be read it ends
    normally with one new bar per category, each a child of the svg with
    class [bar], the category's datapoint and no opacity style, and
    otherwise it throws after the removal. *)
Theorem update_rebuilds_marks v options d svg n :
  visualSVG v = [svg] → is_Some (nodes d !! svg) →
  (n ∈ querySelectorAll d (Some svg) Universal →
     parent_of (update' v options d).1.2 n = None)
  ∧ (parent_of (update' v options d).1.2 n = Some svg →
       (n ∉ dom (nodes d))
       ∧ style_of (update' v options d).1.2 n "opacity" = None)
  ∧ match read_dataViews options with
    | None => (update' v options d).2 = TypeError
    | Some (category0, countries, revenue) =>
        (update' v options d).2 = Normal
        ∧ ∃ ns : list node,
            length ns = length countries ∧ NoDup ns
            ∧ ∀ i m, ns !! i = Some m →
                (m ∉ dom (nodes d))
                ∧ parent_of (update' v options d).1.2 m = Some svg
                ∧ classList <$> nodes (update' v options d).1.2 !! m
                  = Some ["bar"]
                ∧ (∃ c, countries !! i = Some c
                     ∧ datum_of (update' v options d).1.2 m
                       = Some {| value := revenue !! i; country := c;
                                 selectionId := createSelectionId category0 i |})
                ∧ style_of (update' v options d).1.2 m "opacity" = None
    end.
Proof.
  intros Hv Hsvg. destruct v as [tgt vs sb]. cbn [visualSVG] in Hv. subst vs.
  set (v := {| target := tgt; visualSVG := [svg]; showBars := sb |}) in *.
  assert (∀ m, content <$> nodes (update' v options d).1.2 !! m = _) as Hcontent
    by (intros m; apply update_content).
  cbn [visualSVG target v] in Hcontent.
  assert ((update' v options d).2
          = if read_dataViews options is Some _ then Normal else TypeError) as Hc.
  { unfold update. cbv zeta.
    by destruct (read_dataViews options) as [[[??]?]|]. }
  cbn [mbind list_bind] in Hcontent.
  rewrite app_nil_r in Hcontent.
  set (old := querySelectorAll d (Some svg) Universal) in *.
  set (d1 := selection_remove old d) in *.
  assert (∀ m, parent_of d1 m ≠ Some svg) as Hd1.
  { intros m. apply removed_not_child. apply child_in_descendants. }
  assert (n ∈ old → parent_of d1 n = None) as Hgone.
  { intros Hn. unfold parent_of, d1. rewrite lookup_selection_remove.
    rewrite bool_decide_eq_true_2 by done. by destruct (nodes d !! n). }
  assert (dom (nodes d1) = dom (nodes d)) as Hdom
    by apply dom_selection_remove.
  destruct (read_dataViews options) as [[[cat0 countries] revenue]|].
  2: { split; [|split; [|done]].
       - intros Hn. destruct (content_projections _ _ _ (Hcontent n)) as [-> _].
         by apply Hgone.
       - destruct (content_projections _ _ _ (Hcontent n)) as [-> _].
         intros Hp. by destruct (Hd1 n). }
  set (v' := {| target := tgt; visualSVG := [svg];
                showBars := populate_showBars (dataViews options) |}) in *.
  destruct (forEach_draw_bar v' svg (viewport_height options)
              (bandwidth countries (viewport_width options))
              (scaleBand countries (viewport_width options))
              (scaleLinear (d3_max revenue) (viewport_height options))
              cat0 revenue countries eq_refl 0 d1)
    as (ns & Hlen & Hnd & Hnew & _ & Hold & Hbars).
  { apply elem_of_dom. rewrite Hdom. by apply elem_of_dom. }
  rewrite Hdom in Hnew.
  set (d2 := forEach_from _ countries 0 d1) in *.
  assert (∀ i m, ns !! i = Some m →
            ∃ e c, countries !! i = Some c ∧ nodes d2 !! m = Some e
              ∧ drawn_bar createSelectionId v' svg cat0 revenue c i e) as Hbars'
    by (intros i m Hm; apply (Hbars i m Hm)).
  clear Hbars.
  split; [|split; [|split; [done|]]].
  - intros Hn. destruct (content_projections _ _ _ (Hcontent n)) as [-> _].
    assert (n ∉ ns) as Hns.
    { intros Hin. apply (Hnew n Hin).
      apply elem_of_querySelectorAll in Hn as (e & He & _).
      apply elem_of_dom. eauto. }
    unfold parent_of. rewrite Hold by done. by apply Hgone.
  - destruct (content_projections _ _ _ (Hcontent n)) as (-> & _ & _ & Hst).
    rewrite Hst. intros Hp. destruct (decide (n ∈ ns)) as [Hin|Hnin].
    + split; [by apply Hnew|].
      apply list_elem_of_lookup in Hin as [i Hi].
      destruct (Hbars' i n Hi) as (e & c & _ & He & _ & _ & _ & _ & Hstyle).
      unfold style_of. rewrite He. simpl. rewrite Hstyle.
      by apply lookup_singleton_ne.
    + unfold parent_of in Hp. rewrite Hold in Hp by done. by destruct (Hd1 n).
  - exists ns. split; [done|]. split; [done|]. intros i m Hm.
    destruct (Hbars' i m Hm) as (e & c & Hc' & He & _ & Hcls & Hpar & Hdat & Hstyle).
    destruct (content_projections _ _ _ (Hcontent m)) as (-> & -> & -> & Hst).
    rewrite Hst. unfold parent_of, datum_of, style_of. rewrite He. simpl.
    split; [apply Hnew; by eapply list_elem_of_lookup_2|].
    split; [done|]. split; [by rewrite Hcls|]. split; [by exists c|].
    rewrite Hstyle. by apply lookup_singleton_ne.
Qed.

(** ** More on the redraw *)

Lemma draw_bar_look v svg pe vh bw xs ys cat0 revenue c k d :
  visualSVG v = [svg] → nodes d !! svg = Some pe →
  ∃ e, draw_bar' v vh bw xs ys cat0 revenue c k d
       = {| nodes := <[fresh (dom (nodes d)) := e]> (nodes d);
            documentElement := documentElement d |}
       ∧ drawn_bar createSelectionId v svg cat0 revenue c k e
       ∧ drawn_look number_sub vh bw xs ys revenue c k e
       ∧ "click" ∈ listeners e.
Proof.
  intros Hv Hsvg. unfold draw_bar.
  rewrite Hv, (selection_append_one _ _ _ _ Hsvg).
  unfold selection_classed, selection_attr, selection_style, selection_on.
  cbv beta iota zeta.
  rewrite selection_alter_inserted, selection_data_one.
  cbv beta iota zeta. rewrite !selection_alter_inserted.
  eexists. split; [reflexivity|].
  split; [unfold drawn_bar; by destruct (datum pe)|].
  split; [|destruct (datum pe); simpl; set_solver].
  unfold drawn_look.
  destruct (datum pe), (xs c); simpl; repeat split;
    by simplify_map_eq.
Qed.

(** A loop whose body inserts one new element per round. *)
Lemma forEach_inserts (f : string → nat → Doc → Doc)
    (P : string → nat → Elem → Prop) svg :
  (∀ c k d, is_Some (nodes d !! svg) →
     ∃ e, f c k d = {| nodes := <[fresh (dom (nodes d)) := e]> (nodes d);
                       documentElement := documentElement d |}
          ∧ P c k e) →
  ∀ countries i d, is_Some (nodes d !! svg) →
  ∃ ns : list node,
    length ns = length countries ∧ NoDup ns
    ∧ (∀ n, n ∈ ns → n ∉ dom (nodes d))
    ∧ documentElement (forEach_from f countries i d) = documentElement d
    ∧ (∀ n, n ∉ ns → nodes (forEach_from f countries i d) !! n = nodes d !! n)
    ∧ (∀ j n, ns !! j = Some n →
         ∃ e c, countries !! j = Some c
           ∧ nodes (forEach_from f countries i d) !! n = Some e
           ∧ P c (i + j) e).
Proof.
  intros Hf. induction countries as [|c countries IH]; intros i d Hsvg.
  { exists []. simpl. repeat split; try done.
    - constructor.
    - intros n Hn. by apply not_elem_of_nil in Hn. }
  destruct (Hf c i d Hsvg) as (e & Hdraw & He).
  set (n0 := fresh (dom (nodes d))) in *.
  assert (n0 ∉ dom (nodes d)) as Hfresh by apply is_fresh.
  assert (n0 ≠ svg) as Hne.
  { intros ->. by apply Hfresh, elem_of_dom. }
  cbn [forEach_from]. rewrite Hdraw.
  set (d1 := {| nodes := <[n0:=e]> (nodes d);
                documentElement := documentElement d |}).
  destruct (IH (S i) d1) as (ns & Hlen & Hnd & Hnew & Hroot & Hold & Hbars).
  { subst d1; simpl. by rewrite lookup_insert_ne. }
  assert (∀ n, n ∈ ns → n ≠ n0 ∧ n ∉ dom (nodes d)) as Hnew'.
  { intros n Hn. specialize (Hnew n Hn). subst d1; simpl in Hnew.
    rewrite dom_insert, not_elem_of_union, not_elem_of_singleton in Hnew.
    done. }
  exists (n0 :: ns). split; [simpl; by rewrite Hlen|].
  split; [constructor; [|done]; intros Hn; by apply Hnew' in Hn as [? _]|].
  split.
  { intros n [->|Hn]%elem_of_cons; [done|]. by apply Hnew'. }
  split; [done|]. split.
  - intros n Hn. apply not_elem_of_cons in Hn as [Hn0 Hn].
    rewrite Hold by done. subst d1; simpl. by rewrite lookup_insert_ne.
  - intros [|j] n Hj; simpl in Hj.
    + injection Hj as <-. exists e, c. split; [done|].
      rewrite Nat.add_0_r. split; [|done].
      rewrite Hold. { subst d1; simpl. apply lookup_insert_eq. }
      intros Hn. by apply Hnew' in Hn as [? _].
    + destruct (Hbars j n Hj) as (e' & c' & Hc' & Hn & Hd).
      exists e', c'. rewrite Nat.add_succ_r. done.
Qed.

Lemma listens_refl (e : Elem) : listens [] e e.
Proof. unfold listens. by repeat split. Qed.

Lemma listens_trans T1 T2 (e1 e2 e3 : Elem) :
  listens T1 e1 e2 → listens T2 e2 e3 → listens (T1 ++ T2) e1 e3.
Proof.
  intros (Hc1 & Hs1 & Ht1) (Hc2 & Hs2 & Ht2). unfold listens.
  split; [congruence|]. split; [by etrans|].
  apply Forall_app. split; [|done].
  eapply Forall_impl; [exact Ht1|]. intros t Ht. by apply Hs2.
Qed.

Lemma listens_weaken T (e e' : Elem) : listens T e e' → listens [] e e'.
Proof. intros (Hc & Hs & _). unfold listens. by repeat split. Qed.

(** How a store stands to an earlier one when only listeners have been
    registered, those of [T n] at least on node [n]. *)
Local Abbreviation listening := (λ (T : node → list string) (d d' : Doc),
  documentElement d' = documentElement d
  ∧ ∀ n, match nodes d !! n with
         | Some e => ∃ e', nodes d' !! n = Some e' ∧ listens (T n) e e'
         | None => nodes d' !! n = None
         end).

Lemma selection_on_listening type sel d :
  listening (λ n, if bool_decide (n ∈ sel) then [type] else [])
    d (selection_on type sel d).
Proof.
  split; [done|]. intros n. unfold selection_on.
  rewrite lookup_selection_alter by apply add_listener_idemp.
  destruct (nodes d !! n) as [e|]; [|by case_bool_decide].
  case_bool_decide; simpl; eexists; (split; [done|]).
  - unfold listens, add_listener; simpl. split; [done|].
    split; [set_solver|]. repeat constructor. set_solver.
  - apply listens_refl.
Qed.

Lemma addTooltip_listening sel d :
  listening (λ n, if bool_decide (n ∈ sel) then tooltip_events else [])
    d (addTooltip tooltip_events sel d).
Proof.
  unfold addTooltip. revert d.
  induction tooltip_events as [|type l IH]; intros d.
  { cbn [foldl]. split; [done|]. intros n. destruct (nodes d !! n); [|done].
    eexists. split; [done|]. case_bool_decide; apply listens_refl. }
  cbn [foldl].
  destruct (selection_on_listening type sel d) as [Hr1 H1].
  destruct (IH (selection_on type sel d)) as [Hr2 H2].
  split; [congruence|]. intros n. specialize (H1 n). specialize (H2 n).
  destruct (nodes d !! n) as [e|].
  - destruct H1 as (e1 & He1 & Hl1). rewrite He1 in H2.
    destruct H2 as (e2 & He2 & Hl2). exists e2. split; [done|].
    pose proof (listens_trans _ _ _ _ _ Hl1 Hl2) as Hl.
    case_bool_decide; exact Hl.
  - by rewrite H1 in H2.
Qed.

Lemma listening_shape T d d' :
  listening T d d' →
  ∀ n, (λ e : Elem, (parentNode e, classList e)) <$> nodes d' !! n
       = (λ e : Elem, (parentNode e, classList e)) <$> nodes d !! n.
Proof.
  intros [_ Hl] n. specialize (Hl n). destruct (nodes d !! n) as [e|].
  - destruct Hl as (e' & -> & [= _ Hc Hp _ _ _] & _). simpl. congruence.
  - by rewrite Hl.
Qed.

Lemma listening_selectAll T d d' s :
  listening T d d' → selectAll s d' = selectAll s d.
Proof.
  intros Hl. apply shape_querySelectorAll; [apply Hl|].
  by apply (listening_shape T).
Qed.

(** The two registrations that end [update]: every element that the
    lookup [".bar"] finds gets the tooltip and context-menu listeners. *)
Lemma registrations_listening d :
  listening (λ n, if bool_decide (rendered_bar d n)
                  then tooltip_events ++ ["contextmenu"] else [])
    d (handleContextMenu
         (addTooltip tooltip_events (selectAll (ByClass "bar") d) d)).
Proof.
  set (bars := selectAll (ByClass "bar") d).
  pose proof (addTooltip_listening bars d) as H1.
  set (d3 := addTooltip tooltip_events bars d) in *.
  assert (selectAll (ByClass "bar") d3 = bars) as Hbars
    by apply (listening_selectAll _ _ _ _ H1).
  pose proof (selection_on_listening "contextmenu" bars d3) as H2.
  unfold handleContextMenu. rewrite Hbars.
  destruct H1 as [Hr1 H1], H2 as [Hr2 H2].
  split; [congruence|]. intros n. specialize (H1 n). specialize (H2 n).
  destruct (nodes d !! n) as [e|].
  - destruct H1 as (e1 & He1 & Hl1). rewrite He1 in H2.
    destruct H2 as (e2 & He2 & Hl2). exists e2. split; [done|].
    pose proof (listens_trans _ _ _ _ _ Hl1 Hl2) as Hl.
    unfold rendered_bar. fold bars.
    destruct (decide (n ∈ bars)) as [Hb|Hb].
    + rewrite !bool_decide_eq_true_2 in Hl by done.
      by rewrite bool_decide_eq_true_2.
    + rewrite !bool_decide_eq_false_2 in Hl by done.
      by rewrite bool_decide_eq_false_2.
  - by rewrite H1 in H2.
Qed.

(** [update] step by step, for a visual that holds its svg: the store
    [d2] after the removal and the loop, the new elements [ns] of the
    loop, and what is returned. *)
Lemma update_spec v options d svg :
  visualSVG v = [svg] → is_Some (nodes d !! svg) →
  ∃ (ns : list node) (d2 : Doc),
    NoDup ns ∧ (∀ n, n ∈ ns → n ∉ dom (nodes d))
    ∧ (∀ n, n ∉ ns →
         nodes d2 !! n
         = if bool_decide (n ∈ querySelectorAll d (Some svg) Universal)
           then detach <$> nodes d !! n else nodes d !! n)
    ∧ documentElement d2 = documentElement d
    ∧ (update' v options d).1.1
      = {| target := target v; visualSVG := [svg];
           showBars := populate_showBars (dataViews options) |}
    ∧ match read_dataViews options with
      | None =>
          ns = [] ∧ (update' v options d).1.2 = d2
          ∧ (update' v options d).2 = TypeError
      | Some (cat0, countries, revenue) =>
          length ns = length countries
          ∧ (update' v options d).1.2
            = handleContextMenu
                (addTooltip tooltip_events (selectAll (ByClass "bar") d2) d2)
          ∧ (update' v options d).2 = Normal
          ∧ ∀ i n, ns !! i = Some n →
              ∃ e c, countries !! i = Some c ∧ nodes d2 !! n = Some e
                ∧ drawn_bar createSelectionId
                    {| target := target v; visualSVG := [svg];
                       showBars := populate_showBars (dataViews options) |}
                    svg cat0 revenue c i e
                ∧ drawn_look number_sub (viewport_height options)
                    (bandwidth countries (viewport_width options))
                    (scaleBand countries (viewport_width options))
                    (scaleLinear (d3_max revenue) (viewport_height options))
                    revenue c i e
                ∧ "click" ∈ listeners e
      end.
Proof.
  intros Hv Hsvg. destruct v as [tgt vs sb]. cbn [visualSVG] in Hv. subst vs.
  unfold update. cbn [visualSVG target mbind list_bind]. rewrite app_nil_r.
  set (old := querySelectorAll d (Some svg) Universal).
  set (d1 := selection_remove old d).
  set (v' := {| target := tgt; visualSVG := [svg];
                showBars := populate_showBars (dataViews options) |}).
  destruct (read_dataViews options) as [[[cat0 countries] revenue]|].
  2: { exists [], d1. split; [constructor|]. split; [by intros n ?%not_elem_of_nil|].
       split; [intros n _; apply lookup_selection_remove|]. by repeat split. }
  destruct (forEach_inserts
              (draw_bar' v' (viewport_height options)
                 (bandwidth countries (viewport_width options))
                 (scaleBand countries (viewport_width options))
                 (scaleLinear (d3_max revenue) (viewport_height options))
                 cat0 revenue)
              (λ c k e,
                 drawn_bar createSelectionId v' svg cat0 revenue c k e
                 ∧ drawn_look number_sub (viewport_height options)
                     (bandwidth countries (viewport_width options))
                     (scaleBand countries (viewport_width options))
                     (scaleLinear (d3_max revenue) (viewport_height options))
                     revenue c k e
                 ∧ "click" ∈ listeners e)
              svg) with (countries := countries) (i := 0) (d := d1)
    as (ns & Hlen & Hnd & Hnew & Hroot & Hold & Hbars).
  { intros c k d0 [pe Hpe]. by apply (draw_bar_look v' svg pe). }
  { apply elem_of_dom. unfold d1. rewrite dom_selection_remove.
    by apply elem_of_dom. }
  unfold d1 in Hnew. rewrite dom_selection_remove in Hnew.
  eexists ns, _. split; [done|]. split; [done|].
  split; [intros n Hn; rewrite (Hold n Hn); apply lookup_selection_remove|].
  split; [done|]. split; [done|]. split; [done|]. split; [done|].
  split; [done|]. intros i n Hn. apply (Hbars i n Hn).
Qed.

(** [update] ends normally exactly when the first data view has a
    categorical part with a first category column and a first value
    column; in every other case reading line 78, 79 or 80 throws. *)
Theorem update_normal_iff v options d :
  (update' v options d).2 = Normal
  ↔ ∃ dv dvs cat c0 cats v0 vals,
      dataViews options = Some (dv :: dvs) ∧ categorical dv = Some cat
      ∧ categories cat = Some (c0 :: cats)
      ∧ valueColumns cat = Some (v0 :: vals).
Proof.
  unfold update, read_dataViews. cbv zeta.
  assert (∀ P : Prop, ¬ P → (TypeError = Normal ↔ P)) as Hno
    by (intros P HP; split; [done|by intros ?%HP]).
  destruct (dataViews options) as [[|dv dvs]|] eqn:E1; simpl;
    [apply Hno; intros (?&?&?&?&?&?&?&?&?&?&?); congruence|
    |apply Hno; intros (?&?&?&?&?&?&?&?&?&?&?); congruence].
  destruct (categorical dv) as [cat|] eqn:E2; simpl;
    [|apply Hno; intros (?&?&?&?&?&?&?&?&?&?&?); congruence].
  destruct (categories cat) as [[|c0 cats]|] eqn:E3; simpl;
    [apply Hno; intros (?&?&?&?&?&?&?&?&?&?&?); congruence|
    |apply Hno; intros (?&?&?&?&?&?&?&?&?&?&?); congruence].
  destruct (valueColumns cat) as [[|v0 vals]|] eqn:E4; simpl;
    [apply Hno; intros (?&?&?&?&?&?&?&?&?&?&?); congruence|
    |apply Hno; intros (?&?&?&?&?&?&?&?&?&?&?); congruence].
  split; [|done]. intros _. by exists dv, dvs, cat, c0, cats, v0, vals.
Qed.

(** What [update] returns, read off [update_spec]: the registrations
    on top of the store after the loop. *)
Lemma update_listening v options d svg ns d2 :
  (match read_dataViews options with
   | None => ns = [] ∧ (update' v options d).1.2 = d2
             ∧ (update' v options d).2 = TypeError
   | Some (cat0, countries, revenue) =>
       length ns = length countries
       ∧ (update' v options d).1.2
         = handleContextMenu
             (addTooltip tooltip_events (selectAll (ByClass "bar") d2) d2)
       ∧ (update' v options d).2 = Normal
       ∧ ∀ i n, ns !! i = Some n →
           ∃ e c, countries !! i = Some c ∧ nodes d2 !! n = Some e
             ∧ drawn_bar createSelectionId
                 {| target := target v; visualSVG := [svg];
                    showBars := populate_showBars (dataViews options) |}
                 svg cat0 revenue c i e
             ∧ drawn_look number_sub (viewport_height options)
                 (bandwidth countries (viewport_width options))
                 (scaleBand countries (viewport_width options))
                 (scaleLinear (d3_max revenue) (viewport_height options))
                 revenue c i e
             ∧ "click" ∈ listeners e
   end) →
  listening (λ n, if read_dataViews options is Some _
                  then if bool_decide (rendered_bar d2 n)
                       then tooltip_events ++ ["contextmenu"] else []
                  else [])
    d2 (update' v options d).1.2.
Proof.
  destruct (read_dataViews options) as [[[cat0 countries] revenue]|].
  - intros (_ & -> & _). apply registrations_listening.
  - intros (_ & -> & _). split; [done|]. intros n.
    destruct (nodes d2 !! n); [|done]. eexists. split; [done|].
    apply listens_refl.
Qed.

(** A redraw leaves every element that was in the store there, with its
    tag, classes, datum, styles (its opacity among them) and attributes;
    it only gains listeners, and it loses its parent exactly when it was
    below the svg. *)
Theorem update_frame v options d svg n e :
  visualSVG v = [svg] → is_Some (nodes d !! svg) → nodes d !! n = Some e →
  ∃ e', nodes (update' v options d).1.2 !! n = Some e'
    ∧ (tagName e', classList e', datum e', style e', attributes e')
      = (tagName e, classList e, datum e, style e, attributes e)
    ∧ parentNode e'
      = (if bool_decide (n ∈ querySelectorAll d (Some svg) Universal)
         then None else parentNode e)
    ∧ listeners e ⊆ listeners e'.
Proof.
  intros Hv Hsvg Hn.
  destruct (update_spec v options d svg Hv Hsvg)
    as (ns & d2 & _ & Hnew & Hold & _ & _ & Hret).
  destruct (update_listening v options d svg ns d2 Hret) as [_ Hl].
  specialize (Hl n). rewrite Hold, Hn in Hl.
  2: { intros Hin. apply (Hnew n Hin), elem_of_dom. eauto. }
  assert (∀ e0 : Elem, (∃ e', nodes (update' v options d).1.2 !! n = Some e'
                          ∧ listens [] e0 e') →
            ∃ e', nodes (update' v options d).1.2 !! n = Some e'
              ∧ (tagName e', classList e', datum e', style e', attributes e')
                = (tagName e0, classList e0, datum e0, style e0, attributes e0)
              ∧ parentNode e' = parentNode e0
              ∧ listeners e0 ⊆ listeners e') as Hgo.
  { intros e0 (e' & He' & [= ? ? ? ? ? ?] & Hs & _). exists e'.
    repeat split; try done. congruence. }
  case_bool_decide; simpl in Hl;
    [apply (Hgo (detach e))|apply (Hgo e)];
    destruct Hl as (e' & He' & Hl); exists e';
    (split; [done|]); by apply listens_weaken in Hl.
Qed.

Lemma listening_parent_of T d d' n :
  listening T d d' → parent_of d' n = parent_of d n.
Proof.
  intros Hl. unfold parent_of.
  pose proof (listening_shape T d d' Hl n) as Hs.
  destruct (nodes d' !! n), (nodes d !! n); simpl in *; congruence.
Qed.

(** The children of the svg after [update] are the new elements of the
    loop and no others. *)
Lemma update_children_ns v options d svg (ns : list node) d2 :
  is_Some (nodes d !! svg) →
  (∀ n, n ∈ ns → n ∉ dom (nodes d)) →
  (∀ n, n ∉ ns →
     nodes d2 !! n
     = if bool_decide (n ∈ querySelectorAll d (Some svg) Universal)
       then detach <$> nodes d !! n else nodes d !! n) →
  (∀ n, n ∈ ns → parent_of d2 n = Some svg) →
  ∀ T, listening T d2 (update' v options d).1.2 →
  ∀ m, parent_of (update' v options d).1.2 m = Some svg ↔ m ∈ ns.
Proof.
  intros Hsvg Hnew Hold Hbars T Hl m.
  rewrite (listening_parent_of T d2 _ m Hl).
  split; [|apply Hbars]. intros Hp.
  destruct (decide (m ∈ ns)) as [|Hm]; [done|]. exfalso.
  unfold parent_of in Hp. rewrite (Hold m Hm) in Hp.
  case_bool_decide as Hin.
  - by destruct (nodes d !! m).
  - by apply Hin, child_in_descendants.
Qed.

(** After a redraw the svg has exactly one child per category of the
    data, all of them new, and none when the data cannot be read: bars
    do not pile up from one redraw to the next. *)
Theorem update_children v options d svg :
  visualSVG v = [svg] → is_Some (nodes d !! svg) →
  ∃ ns : list node,
    NoDup ns
    ∧ length ns = (if read_dataViews options is Some (_, countries, _)
                   then length countries else 0)
    ∧ (∀ m, m ∈ ns → m ∉ dom (nodes d))
    ∧ ∀ m, parent_of (update' v options d).1.2 m = Some svg ↔ m ∈ ns.
Proof.
  intros Hv Hsvg.
  destruct (update_spec v options d svg Hv Hsvg)
    as (ns & d2 & Hnd & Hnew & Hold & _ & _ & Hret).
  pose proof (update_listening v options d svg ns d2 Hret) as Hl.
  exists ns. split; [done|]. split; [|split; [done|]].
  - destruct (read_dataViews options) as [[[cat0 countries] revenue]|].
    + by destruct Hret as [-> _].
    + by destruct Hret as [-> _].
  - eapply update_children_ns; [exact Hsvg|exact Hnew|exact Hold| |exact Hl].
    intros n [i Hi]%list_elem_of_lookup.
    destruct (read_dataViews options) as [[[cat0 countries] revenue]|].
    + destruct Hret as (_ & _ & _ & Hbars).
      destruct (Hbars i n Hi) as (e & c & _ & He & (_ & _ & Hp & _) & _).
      unfold parent_of. by rewrite He.
    + destruct Hret as [-> _]. by rewrite lookup_nil in Hi.
Qed.

(** The element below the svg after a readable redraw. *)
Lemma update_child_element v options d svg cat0 countries revenue m :
  visualSVG v = [svg] → is_Some (nodes d !! svg) →
  read_dataViews options = Some (cat0, countries, revenue) →
  parent_of (update' v options d).1.2 m = Some svg →
  ∃ i c e,
    countries !! i = Some c
    ∧ nodes (update' v options d).1.2 !! m = Some e
    ∧ tagName e = "rect" ∧ classList e = ["bar"]
    ∧ datum e = Some {| value := revenue !! i; country := c;
                        selectionId := createSelectionId cat0 i |}
    ∧ style e
      = {["display" := CssKeyword
            (if populate_showBars (dataViews options) then "block"
             else "none")]}
    ∧ drawn_look number_sub (viewport_height options)
        (bandwidth countries (viewport_width options))
        (scaleBand countries (viewport_width options))
        (scaleLinear (d3_max revenue) (viewport_height options))
        revenue c i e
    ∧ "click" ∈ listeners e.
Proof.
  intros Hv Hsvg Hread Hp.
  destruct (update_spec v options d svg Hv Hsvg)
    as (ns & d2 & Hnd & Hnew & Hold & _ & _ & Hret).
  pose proof (update_listening v options d svg ns d2 Hret) as Hl.
  rewrite Hread in Hret. destruct Hret as (_ & _ & _ & Hbars).
  assert (m ∈ ns) as [i Hi]%list_elem_of_lookup.
  { eapply update_children_ns;
      [exact Hsvg|exact Hnew|exact Hold| |exact Hl|exact Hp].
    intros n [i Hi]%list_elem_of_lookup.
    destruct (Hbars i n Hi) as (e & c & _ & He & (_ & _ & Hpar & _) & _).
    unfold parent_of. by rewrite He. }
  destruct (Hbars i m Hi)
    as (e & c & Hc & He & (Htag & Hcls & _ & Hdat & Hsty) & Hlook & Hclick).
  destruct Hl as [_ Hl]. specialize (Hl m). rewrite He in Hl.
  destruct Hl as (e' & He' & [= ? ? ? ? ? Hattr] & Hsub & _).
  cbn [showBars] in Hsty.
  exists i, c, e'. split; [done|]. split; [done|].
  split; [congruence|]. split; [congruence|]. split; [congruence|].
  split; [congruence|]. split; [|by apply Hsub].
  unfold drawn_look in *. by rewrite Hattr.
Qed.


(** A redraw that could read its data puts the context-menu listener
    and the tooltip listeners on every element that the document lookup
    [".bar"] finds afterwards, the bars of this visual or not. *)
Theorem update_listeners v options d svg cat0 countries revenue n :
  visualSVG v = [svg] → is_Some (nodes d !! svg) →
  read_dataViews options = Some (cat0, countries, revenue) →
  rendered_bar (update' v options d).1.2 n →
  ∃ e, nodes (update' v options d).1.2 !! n = Some e
    ∧ "contextmenu" ∈ listeners e
    ∧ Forall (λ type, type ∈ listeners e) tooltip_events.
Proof.
  intros Hv Hsvg Hread Hn.
  destruct (update_spec v options d svg Hv Hsvg)
    as (ns & d2 & _ & _ & _ & _ & _ & Hret).
  pose proof (update_listening v options d svg ns d2 Hret) as Hl.
  unfold rendered_bar in Hn.
  rewrite (listening_selectAll _ _ _ _ Hl) in Hn.
  rewrite Hread in Hl. destruct Hl as [_ Hl]. specialize (Hl n).
  apply elem_of_querySelectorAll in Hn as Hn'. destruct Hn' as (e2 & He2 & _).
  rewrite He2 in Hl. destruct Hl as (e & He & _ & _ & Ht).
  rewrite bool_decide_eq_true_2 in Ht by done.
  apply Forall_app in Ht as [Ht Hc]. exists e. split; [done|].
  split; [|done]. by inversion_clear Hc.
Qed.

(** ** The visual between events *)

Lemma update_elements v options d svg :
  visualSVG v = [svg] → is_Some (nodes d !! svg) →
  documentElement (update' v options d).1.2 = documentElement d
  ∧ (∀ n e, nodes d !! n = Some e →
       ∃ e', nodes (update' v options d).1.2 !! n = Some e'
         ∧ classList e' = classList e ∧ datum e' = datum e
         ∧ parentNode e'
           = if bool_decide (n ∈ querySelectorAll d (Some svg) Universal)
             then None else parentNode e)
  ∧ (∀ n e', nodes d !! n = None →
       nodes (update' v options d).1.2 !! n = Some e' →
       parentNode e' = Some svg ∧ classList e' = ["bar"]
       ∧ is_Some (datum e')).
Proof.
  intros Hv Hsvg.
  destruct (update_spec v options d svg Hv Hsvg)
    as (ns & d2 & _ & Hnew & Hold & Hroot & _ & Hret).
  destruct (update_listening v options d svg ns d2 Hret) as [Hr Hl].
  split; [congruence|]. split.
  - intros n e Hn. specialize (Hl n). rewrite Hold, Hn in Hl.
    2: { intros Hin. apply (Hnew n Hin), elem_of_dom. eauto. }
    case_bool_decide; simpl in Hl;
      destruct Hl as (e' & He' & [= ? ? ? ? ? ?] & _); exists e';
      repeat split; done.
  - intros n e' Hn He'. specialize (Hl n).
    destruct (decide (n ∈ ns)) as [[i Hi]%list_elem_of_lookup|Hnin].
    + destruct (read_dataViews options) as [[[cat0 countries] revenue]|].
      * destruct Hret as (_ & _ & _ & Hbars).
        destruct (Hbars i n Hi) as (e & c & _ & He & (_ & Hc & Hp & Hd & _) & _).
        rewrite He in Hl. destruct Hl as (e'' & He'' & [= ? ? ? ? ? ?] & _).
        assert (e'' = e') as -> by congruence.
        split; [congruence|]. split; [congruence|].
        rewrite Hd in *. eauto.
      * destruct Hret as [-> _]. by rewrite lookup_nil in Hi.
    + rewrite (Hold n Hnin), Hn in Hl.
      case_bool_decide; simpl in Hl; congruence.
Qed.

Lemma has_ancestor_agree fuel d d' r n :
  (∀ a, a = n ∨ has_ancestor fuel d a n = true →
        parent_of d' a = parent_of d a) →
  has_ancestor fuel d' r n = has_ancestor fuel d r n.
Proof.
  revert n. induction fuel as [|fuel IH]; intros n Hsame; [done|].
  cbn [has_ancestor] in *. rewrite (Hsame n) by auto.
  destruct (parent_of d n) as [p|] eqn:Hp; [|done].
  rewrite IH; [done|]. intros a Ha. apply Hsame. right.
  rewrite ?Hp. destruct Ha as [-> | ->].
  - by rewrite bool_decide_eq_true_2.
  - apply orb_true_r.
Qed.

Lemma has_ancestor_mono (fuel fuel' : nat) d r n :
  (fuel ≤ fuel')%nat → has_ancestor fuel d r n = true →
  has_ancestor fuel' d r n = true.
Proof.
  revert fuel' n. induction fuel as [|fuel IH]; intros fuel' n Hle; [done|].
  destruct fuel' as [|fuel']; [lia|]. cbn [has_ancestor].
  destruct (parent_of d n) as [p|]; [|done].
  intros [->|Hp]%orb_true_iff; [done|].
  rewrite (IH fuel' p) by (done || lia). apply orb_true_r.
Qed.

Lemma has_ancestor_childless fuel d a n :
  (∀ q, parent_of d q ≠ Some a) → has_ancestor fuel d a n = false.
Proof.
  intros Hno. revert n. induction fuel as [|fuel IH]; intros n; [done|].
  cbn [has_ancestor]. destruct (parent_of d n) as [p|] eqn:Hp; [|done].
  rewrite IH, orb_false_r. apply bool_decide_eq_false_2.
  intros ->. by apply (Hno n).
Qed.

Lemma closed_store_parent d n p :
  closed_store d → parent_of d n = Some p → is_Some (nodes d !! p).
Proof.
  intros Hcl Hp. unfold parent_of in Hp.
  destruct (nodes d !! n) as [e|] eqn:He; [|done]. simpl in Hp.
  specialize (Hcl n e He). simpl in Hcl. by rewrite Hp in Hcl.
Qed.

Lemma closed_store_ancestor fuel d a n :
  closed_store d → has_ancestor fuel d a n = true → is_Some (nodes d !! a).
Proof.
  intros Hcl. revert n. induction fuel as [|fuel IH]; intros n; [done|].
  cbn [has_ancestor]. destruct (parent_of d n) as [p|] eqn:Hp; [|done].
  intros [Hpa|Hpa]%orb_true_iff.
  - apply bool_decide_eq_true_1 in Hpa as <-. by eapply closed_store_parent.
  - by eapply IH.
Qed.

Section after_update.

Variables (v : Visual) (options : VisualUpdateOptions (number:=number))
  (d : Doc) (svg : node).
Hypothesis Hv : visualSVG v = [svg].
Hypothesis Hsvg : is_Some (nodes d !! svg).
Hypothesis Hcl : closed_store d.
Hypothesis Htree : svg_in_tree d svg.

Local Abbreviation d' := (update' v options d).1.2.

Lemma update_keeps_path a :
  a = svg ∨ has_ancestor (depth_bound d) d a svg = true →
  parent_of d' a = parent_of d a.
Proof.
  intros Ha.
  assert (is_Some (nodes d !! a)) as [e He].
  { destruct Ha as [->|Ha]; [done|]. by eapply closed_store_ancestor. }
  destruct (update_elements v options d svg Hv Hsvg) as (_ & Hold & _).
  destruct (Hold a e He) as (e' & He' & _ & _ & Hp).
  unfold parent_of. rewrite He, He'. simpl. rewrite Hp.
  case_bool_decide as Hin; [exfalso|done].
  destruct Htree as [_ Hdesc]. rewrite Forall_forall in Hdesc.
  destruct (Hdesc a Hin) as [Hne Hnot]. unfold contains in Hnot.
  destruct Ha; congruence.
Qed.

Lemma update_dom_subseteq : dom (nodes d) ⊆ dom (nodes d').
Proof.
  intros n [e He]%elem_of_dom.
  destruct (update_elements v options d svg Hv Hsvg) as (_ & Hold & _).
  destruct (Hold n e He) as (e' & He' & _). apply elem_of_dom. eauto.
Qed.

Lemma update_svg_connected :
  svg = documentElement d'
  ∨ has_ancestor (depth_bound d) d' (documentElement d') svg = true.
Proof.
  destruct (update_elements v options d svg Hv Hsvg) as (-> & _ & _).
  destruct Htree as [Hconn _]. unfold isConnected, contains in Hconn.
  apply orb_true_iff in Hconn as [Hroot|Hwalk].
  - left. by apply bool_decide_eq_true_1 in Hroot.
  - right. rewrite <- Hwalk. apply has_ancestor_agree.
    intros a Ha. apply update_keeps_path. destruct Ha; auto.
Qed.

Lemma update_old_not_below fuel a :
  is_Some (nodes d !! a) → has_ancestor fuel d' svg a = false.
Proof.
  destruct (update_elements v options d svg Hv Hsvg) as (_ & Hold & _).
  revert a. induction fuel as [|fuel IH]; intros a [e He]; [done|].
  cbn [has_ancestor]. destruct (Hold a e He) as (e' & He' & _ & _ & Hp).
  unfold parent_of at 1. rewrite He'. simpl. rewrite Hp.
  case_bool_decide as Hin; [done|].
  destruct (parentNode e) as [p|] eqn:Hpe; [|done].
  assert (parent_of d a = Some p) as Hpa
    by (unfold parent_of; by rewrite He).
  rewrite IH by (by eapply closed_store_parent).
  rewrite orb_false_r. apply bool_decide_eq_false_2. intros ->.
  by apply Hin, child_in_descendants.
Qed.

Lemma update_new_childless a q :
  nodes d !! a = None → parent_of d' q ≠ Some a.
Proof.
  intros Ha Hq.
  destruct (update_elements v options d svg Hv Hsvg) as (_ & Hold & Hnew).
  unfold parent_of in Hq.
  destruct (nodes d' !! q) as [e'|] eqn:He'; [simpl in Hq|done].
  destruct (nodes d !! q) as [e|] eqn:He.
  - destruct (Hold q e He) as (e'' & He'' & _ & _ & Hp).
    assert (e'' = e') as -> by congruence. rewrite Hp in Hq.
    case_bool_decide; [done|].
    assert (parent_of d q = Some a) as Hpa
      by (unfold parent_of; by rewrite He).
    apply (closed_store_parent d q a Hcl) in Hpa as [? ?]. congruence.
  - destruct (Hnew q e' He He') as (Hp & _). destruct Hsvg. congruence.
Qed.

(** [update] keeps the visual well placed. *)
Lemma update_well_placed_parts :
  bars_are_marks d →
  closed_store d' ∧ svg_in_tree d' svg ∧ bars_are_marks d'
  ∧ is_Some (nodes d' !! svg).
Proof.
  intros Hbars.
  destruct (update_elements v options d svg Hv Hsvg) as (Hroot & Hold & Hnew).
  assert (is_Some (nodes d' !! svg)) as Hsvg'.
  { apply elem_of_dom, update_dom_subseteq. by apply elem_of_dom. }
  split; [|split; [|split; [|done]]].
  - intros n e' He'. destruct (nodes d !! n) as [e|] eqn:He.
    + destruct (Hold n e He) as (e'' & He'' & _ & _ & Hp).
      assert (e'' = e') as -> by congruence. rewrite Hp.
      case_bool_decide; [done|].
      specialize (Hcl n e He). simpl in Hcl.
      destruct (parentNode e) as [p|]; [|done].
      apply elem_of_dom, update_dom_subseteq. by apply elem_of_dom.
    + by destruct (Hnew n e' He He') as (-> & _).
  - split.
    + unfold isConnected, contains.
      destruct update_svg_connected as [->|Hwalk].
      * by rewrite bool_decide_eq_true_2.
      * rewrite (has_ancestor_mono (depth_bound d) (depth_bound d')); [| |done].
        -- apply orb_true_r.
        -- unfold depth_bound. apply le_n_S. rewrite <- !size_dom.
           apply subseteq_size, update_dom_subseteq.
    + apply Forall_forall. intros a Ha.
      apply elem_of_querySelectorAll in Ha as (e' & He' & Hin & _).
      cbn [in_scope] in Hin. unfold contains in Hin.
      destruct (nodes d !! a) as [e|] eqn:He.
      { rewrite update_old_not_below in Hin by eauto. done. }
      split; [intros ->; destruct Hsvg; congruence|].
      apply has_ancestor_childless. intros q. by apply update_new_childless.
  - intros n e' He' Hbar. destruct (nodes d !! n) as [e|] eqn:He.
    + destruct (Hold n e He) as (e'' & He'' & Hc & Hd & _).
      assert (e'' = e') as -> by congruence.
      rewrite Hd. apply (Hbars n e He). by rewrite <- Hc.
    + by destruct (Hnew n e' He He') as (_ & _ & ?).
Qed.

(** The bars that [update] hangs below the svg are rendered marks. *)
Lemma update_child_rendered m :
  parent_of d' m = Some svg →
  nodes d !! m = None ∧ rendered_mark d' m ∧ rendered_bar d' m.
Proof.
  intros Hp.
  destruct (update_elements v options d svg Hv Hsvg) as (Hroot & Hold & Hnew).
  assert (nodes d !! m = None) as Hm.
  { destruct (nodes d !! m) as [e|] eqn:He; [exfalso|done].
    destruct (Hold m e He) as (e' & He' & _ & _ & Hpe).
    unfold parent_of in Hp. rewrite He' in Hp. simpl in Hp.
    rewrite Hpe in Hp. case_bool_decide as Hin; [done|].
    apply Hin, child_in_descendants. unfold parent_of. by rewrite He. }
  split; [done|].
  unfold parent_of in Hp.
  destruct (nodes d' !! m) as [e'|] eqn:He'; [simpl in Hp|done].
  destruct (Hnew m e' Hm He') as (_ & Hcls & [dp Hdp]).
  assert (isConnected d' m = true) as Hconn.
  { unfold isConnected, contains, depth_bound. cbn [has_ancestor].
    unfold parent_of at 1. rewrite He'. simpl. rewrite Hp.
    destruct update_svg_connected as [->|Hwalk].
    - rewrite (bool_decide_eq_true_2 (documentElement d' = _)) by done.
      simpl. apply orb_true_r.
    - rewrite (has_ancestor_mono (depth_bound d) (size (nodes d')));
        [by rewrite !orb_true_r| |done].
      unfold depth_bound. rewrite <- !size_dom. apply subset_size.
      split; [apply update_dom_subseteq|].
      intros Hsub. assert (m ∈ dom (nodes d)) as Hin
        by (apply Hsub, elem_of_dom; eauto).
      apply elem_of_dom in Hin as [? ?]. congruence. }
  split.
  - exists e', dp. rewrite Hcls. repeat split; try done. left.
  - apply elem_of_querySelectorAll. exists e'. split; [done|].
    split; [done|]. simpl. rewrite Hcls. by apply bool_decide_eq_true_2; left.
Qed.

End after_update.

Local Abbreviation handle_all' :=
  (handle_all createSelectionId populate_showBars d3_max scaleBand bandwidth
     scaleLinear number_sub tooltip_events).

Lemma update_well_placed v options d :
  well_placed v d →
  well_placed (update' v options d).1.1 (update' v options d).1.2.
Proof.
  intros (svg & Hv & Hsvg & Hcl & Htree & Hbars).
  destruct (update_spec v options d svg Hv Hsvg)
    as (_ & _ & _ & _ & _ & _ & Hv' & _).
  destruct (update_well_placed_parts v options d svg Hv Hsvg Hcl Htree Hbars)
    as (? & ? & ? & ?).
  exists svg. rewrite Hv'. cbn [visualSVG].
  split; [done|]. split; [done|]. split; [done|]. by split.
Qed.

Lemma sync_well_placed v bs ids d :
  well_placed v d → well_placed v (syncSelectionState bs ids d).1.
Proof.
  intros (svg & Hv & Hsvg & Hcl & [Hconn Hdesc] & Hbars).
  pose proof (sync_root bs ids d) as Hroot.
  pose proof (sync_shape bs ids d) as Hshape.
  pose proof (shape_dom _ _ Hshape) as Hdom.
  assert (∀ n e1, nodes (syncSelectionState bs ids d).1 !! n = Some e1 →
            ∃ e, nodes d !! n = Some e ∧ parentNode e1 = parentNode e
                 ∧ classList e1 = classList e ∧ datum e1 = datum e) as Hback.
  { intros n e1 He1.
    destruct (sync_lookup bs ids d n) as [Hn|(e & w & Hn & _ & Hn')].
    - exists e1. by rewrite <- Hn.
    - exists e. rewrite Hn' in He1. injection He1 as <-. done. }
  exists svg. split; [done|]. split.
  { apply elem_of_dom. rewrite Hdom. by apply elem_of_dom. }
  split; [|split; [split|]].
  - intros n e1 He1. destruct (Hback n e1 He1) as (e & He & -> & _).
    specialize (Hcl n e He). simpl in Hcl.
    destruct (parentNode e) as [p|]; [|done].
    apply elem_of_dom. rewrite Hdom. by apply elem_of_dom.
  - unfold isConnected, contains.
    by rewrite (shape_depth_bound _ _ Hshape),
      (shape_has_ancestor _ _ Hshape), Hroot.
  - rewrite (shape_querySelectorAll _ _ Hroot Hshape).
    eapply Forall_impl; [exact Hdesc|]. intros a [Hne Hnot].
    split; [done|]. unfold contains.
    by rewrite (shape_depth_bound _ _ Hshape),
      (shape_has_ancestor _ _ Hshape).
  - intros n e1 He1 Hbar. destruct (Hback n e1 He1) as (e & He & _ & Hc & ->).
    apply (Hbars n e He). by rewrite <- Hc.
Qed.

Lemma bars_are_marks_selectAll d :
  bars_are_marks d → Forall (is_mark d) (selectAll (ByClass "bar") d).
Proof.
  intros Hbars. apply Forall_forall. intros n Hn.
  apply elem_of_querySelectorAll in Hn as (e & He & _ & Hm).
  simpl in Hm. apply bool_decide_eq_true_1 in Hm.
  unfold is_mark, datum_of. rewrite He. simpl. by apply (Hbars n e He).
Qed.

(** From a well-placed visual, any sequence of redraws and resolved
    clicks leaves the visual well placed, and the click resolved next
    ends normally: no bar is ever left without a datum for the loop of
    [syncSelectionState] to trip over, whatever the redraws were given. *)
Theorem handle_all_well_placed evs v d ids :
  well_placed v d →
  well_placed (handle_all' evs (v, d)).1 (handle_all' evs (v, d)).2
  ∧ (click_resolved ids (handle_all' evs (v, d)).2).2 = Normal.
Proof.
  intros Hwp.
  assert (well_placed (handle_all' evs (v, d)).1 (handle_all' evs (v, d)).2)
    as Hend.
  { unfold handle_all. revert v d Hwp.
    induction evs as [|ev evs IH]; intros v d Hwp; [done|].
    cbn [foldl]. destruct ev as [options|ids']; cbn [handle fst snd].
    - destruct (update' v options d) as [[v1 d1] c] eqn:E.
      apply IH. pose proof (update_well_placed v options d Hwp) as H1.
      by rewrite E in H1.
    - apply IH. by apply sync_well_placed. }
  split; [done|]. destruct ids as [S|]; [|done].
  destruct Hend as (_ & _ & _ & _ & _ & Hbars).
  by apply click_resolved_lookup, bars_are_marks_selectAll.
Qed.

(** After a redraw of a well-placed visual the bars below the svg are
    rendered marks: new elements of class [bar] with a datapoint that
    the document lookup [".bar"] finds. *)
Theorem update_bars_rendered v options d svg m :
  well_placed v d → visualSVG v = [svg] →
  parent_of (update' v options d).1.2 m = Some svg →
  nodes d !! m = None
  ∧ rendered_mark (update' v options d).1.2 m
  ∧ rendered_bar (update' v options d).1.2 m.
Proof.
  intros (svg' & Hv' & Hsvg & Hcl & Htree & _) Hv Hp.
  assert (svg' = svg) as -> by congruence.
  apply (update_child_rendered v options d svg Hv Hsvg Hcl Htree m Hp).
Qed.

(** A redraw followed by a resolved click, on a well-placed visual: the
    click ends normally, and the bar drawn for the category of index
    [i] is fully opaque exactly when the selection set is empty or one
    of its identifiers includes the identifier the host built for that
    category, and dimmed otherwise. *)
Theorem click_after_redraw v options d svg cat0 countries revenue S m :
  well_placed v d → visualSVG v = [svg] →
  read_dataViews options = Some (cat0, countries, revenue) →
  parent_of (update' v options d).1.2 m = Some svg →
  (click_resolved (Some S) (update' v options d).1.2).2 = Normal
  ∧ ∃ i c,
      countries !! i = Some c
      ∧ datum_of (update' v options d).1.2 m
        = Some {| value := revenue !! i; country := c;
                  selectionId := createSelectionId cat0 i |}
      ∧ (style_of (click_resolved (Some S) (update' v options d).1.2).1 m
           "opacity" = Some opacity_full
         ↔ S = [] ∨ ∃ id, id ∈ S
                      ∧ includes id (createSelectionId cat0 i) = true)
      ∧ (style_of (click_resolved (Some S) (update' v options d).1.2).1 m
           "opacity" = Some opacity_dimmed
         ↔ S ≠ [] ∧ ¬ ∃ id, id ∈ S
                       ∧ includes id (createSelectionId cat0 i) = true).
Proof.
  intros (svg' & Hv' & Hsvg & Hcl & Htree & Hbars) Hv Hread Hp.
  assert (svg' = svg) as -> by congruence.
  destruct (update_well_placed_parts v options d svg Hv Hsvg Hcl Htree Hbars)
    as (_ & _ & Hbars' & _).
  destruct (update_child_rendered v options d svg Hv Hsvg Hcl Htree m Hp)
    as (_ & _ & Hbar).
  destruct (update_child_element v options d svg cat0 countries revenue m
              Hv Hsvg Hread Hp)
    as (i & c & e & Hc & He & _ & _ & Hdat & _).
  destruct (click_resolved_lookup S _ (bars_are_marks_selectAll _ Hbars'))
    as [Hnormal Hlook].
  split; [done|]. exists i, c. split; [done|].
  unfold datum_of, style_of. rewrite Hlook, He.
  rewrite bool_decide_eq_true_2 by done. simpl.
  split; [done|]. destruct S as [|id S]; cbn [click_emphasis].
  - simpl. rewrite lookup_insert_eq. split; split; try done.
    + by left.
    + by intros [? _].
  - unfold emphasise. rewrite Hdat. simpl. rewrite lookup_insert_eq.
    set (dp := {| value := revenue !! i; country := c;
                  selectionId := createSelectionId cat0 i |}).
    pose proof (emphasis_full (id :: S) dp) as Hfull.
    pose proof (emphasis_dimmed (id :: S) dp) as Hdim.
    cbn [selectionId dp] in Hfull, Hdim.
    split; split.
    + intros [= Hf]. right. by apply Hfull.
    + intros [?|Hin]; [done|]. f_equal. by apply Hfull.
    + intros [= Hf]. split; [done|]. by apply Hdim.
    + intros [_ Hno]. f_equal. by apply Hdim.
Qed.

Section tooltip.

Variable number_toString : number → string.

(** The tooltip of a bar drawn by a readable redraw: one item, headed
    by the category, named "Revenue", with the value of the category as
    the template literal prints it, ["undefined"] when the value column
    is shorter than the category column; its identity is the identifier
    the host built for the category. *)
Theorem tooltip_of_bar v options d svg cat0 countries revenue m :
  visualSVG v = [svg] → is_Some (nodes d !! svg) →
  read_dataViews options = Some (cat0, countries, revenue) →
  parent_of (update' v options d).1.2 m = Some svg →
  ∃ i c,
    countries !! i = Some c
    ∧ getTooltipData number_toString (datum_of (update' v options d).1.2 m)
      = Some [{| header := c; displayName := "Revenue";
                 tooltipValue := if revenue !! i is Some x
                                 then number_toString x else "undefined" |}]
    ∧ getDataPointIdentity (datum_of (update' v options d).1.2 m)
      = Some (createSelectionId cat0 i).
Proof.
  intros Hv Hsvg Hread Hp.
  destruct (update_child_element v options d svg cat0 countries revenue m
              Hv Hsvg Hread Hp)
    as (i & c & e & Hc & He & _ & _ & Hdat & _).
  exists i, c. split; [done|]. unfold datum_of. rewrite He. simpl.
  by rewrite Hdat.
Qed.

End tooltip.

(** ** The constructor *)

Lemma constructor_eq element pe d :
  nodes d !! element = Some pe →
  ∃ e, constructor element d
       = ({| target := element; visualSVG := [fresh (dom (nodes d))];
             showBars := false |},
          {| nodes := <[fresh (dom (nodes d)) := e]> (nodes d);
             documentElement := documentElement d |})
       ∧ tagName e = "svg" ∧ classList e = ["visualSVG"]
       ∧ parentNode e = Some element
       ∧ style e = ∅ ∧ attributes e = ∅ ∧ listeners e = ∅.
Proof.
  intros Hpe. unfold constructor.
  rewrite (selection_append_one _ _ _ _ Hpe). cbv beta iota zeta.
  unfold selection_classed. rewrite selection_alter_inserted.
  eexists. split; [reflexivity|]. by destruct (datum pe).
Qed.

(** The constructor adds one element to the store, the svg: a child of
    the target of class [visualSVG] without styles, attributes or
    listeners, which the visual keeps as its selection; every other
    element is as before.  Without a target element nothing is added
    and the selection of the visual is empty. *)
Theorem constructor_appends_svg element d :
  match nodes d !! element with
  | Some _ =>
      ∃ svg e,
        constructor element d
        = ({| target := element; visualSVG := [svg]; showBars := false |},
           {| nodes := <[svg := e]> (nodes d);
              documentElement := documentElement d |})
        ∧ nodes d !! svg = None
        ∧ tagName e = "svg" ∧ classList e = ["visualSVG"]
        ∧ parentNode e = Some element
        ∧ style e = ∅ ∧ attributes e = ∅ ∧ listeners e = ∅
  | None =>
      constructor element d
      = ({| target := element; visualSVG := []; showBars := false |}, d)
  end.
Proof.
  destruct (nodes d !! element) as [pe|] eqn:Hpe.
  - destruct (constructor_eq element pe d Hpe) as (e & Heq & He).
    exists (fresh (dom (nodes d))), e. split; [done|]. split; [|done].
    apply not_elem_of_dom, is_fresh.
  - unfold constructor. cbn [selection_append]. rewrite Hpe.
    by destruct d.
Qed.

(** The constructor leaves the visual well placed, when its target is
    connected to the document in a store whose parent links are closed
    and whose bars are marks. *)
Theorem constructor_well_placed element d :
  is_Some (nodes d !! element) → closed_store d →
  isConnected d element = true → bars_are_marks d →
  well_placed (constructor element d).1 (constructor element d).2.
Proof.
  intros [pe Hpe] Hcl Hconn Hbars.
  destruct (constructor_eq element pe d Hpe)
    as (e & -> & _ & Hcls & Hpar & _).
  cbn [fst snd]. set (svg := fresh (dom (nodes d))).
  assert (nodes d !! svg = None) as Hfresh
    by apply not_elem_of_dom, is_fresh.
  set (d1 := {| nodes := <[svg:=e]> (nodes d);
                documentElement := documentElement d |}).
  assert (∀ q, q ≠ svg → parent_of d1 q = parent_of d q) as Hsame.
  { intros q Hq. unfold parent_of, d1; simpl. by rewrite lookup_insert_ne. }
  assert (∀ q, parent_of d1 q ≠ Some svg) as Hchildless.
  { intros q Hq. destruct (decide (q = svg)) as [->|Hne].
    - unfold parent_of, d1 in Hq; simpl in Hq.
      rewrite lookup_insert_eq in Hq. simpl in Hq. congruence.
    - rewrite Hsame in Hq by done.
      apply (closed_store_parent d q svg Hcl) in Hq as [? ?]. congruence. }
  exists svg. split; [done|]. split.
  { unfold d1; simpl. rewrite lookup_insert_eq. eauto. }
  split; [|split; [split|]].
  - intros n e1 He1. unfold d1 in He1; simpl in He1.
    destruct (decide (n = svg)) as [->|Hne].
    + rewrite lookup_insert_eq in He1. injection He1 as <-. rewrite Hpar.
      unfold d1; simpl. rewrite lookup_insert_ne by congruence. eauto.
    + rewrite lookup_insert_ne in He1 by done.
      specialize (Hcl n e1 He1). simpl in Hcl.
      destruct (parentNode e1) as [p|]; [|done].
      unfold d1; simpl. destruct (decide (p = svg)) as [->|?].
      * rewrite lookup_insert_eq. eauto.
      * by rewrite lookup_insert_ne.
  - unfold isConnected, contains, depth_bound. cbn [has_ancestor].
    unfold parent_of at 1. unfold d1 at 2; simpl.
    rewrite lookup_insert_eq. simpl. rewrite Hpar.
    unfold isConnected, contains in Hconn.
    apply orb_true_iff in Hconn as [Hroot|Hwalk].
    + apply bool_decide_eq_true_1 in Hroot. subst element.
      rewrite (bool_decide_eq_true_2 (documentElement d = _)) by done.
      simpl. apply orb_true_r.
    + assert (has_ancestor (size (<[svg:=e]> (nodes d))) d1
                (documentElement d) element = true) as ->;
        [|by rewrite !orb_true_r].
      rewrite map_size_insert_None by done. fold (depth_bound d).
      rewrite <- Hwalk. apply has_ancestor_agree. intros a Ha.
      apply Hsame. intros ->.
      assert (is_Some (nodes d !! svg)) as [? ?]; [|congruence].
      destruct Ha as [->|Ha]; [eauto|by eapply closed_store_ancestor].
  - apply Forall_forall. intros a Ha.
    apply elem_of_querySelectorAll in Ha as (_ & _ & Hin & _).
    cbn [in_scope] in Hin. unfold contains in Hin.
    by rewrite has_ancestor_childless in Hin.
  - intros n e1 He1 Hbar. unfold d1 in He1; simpl in He1.
    destruct (decide (n = svg)) as [->|Hne].
    + rewrite lookup_insert_eq in He1. injection He1 as <-.
      rewrite Hcls in Hbar. apply list_elem_of_singleton in Hbar. done.
    + rewrite lookup_insert_ne in He1 by done. by apply (Hbars n e1 He1).
Qed.

End Redraw.

End Properties.

(** * Concrete runs *)

Section Runs.

Local Abbreviation B := (Scenario.datapoint 20).

(** Scenario of the specification: M = [A, B, C], S = [A]. *)
Example scenario_one_selected :
  let r := syncSelectionState (Some [2; 3; 4]) (Some [[10]]) Scenario.doc in
  r.2 = Normal
  ∧ (λ n, style_of r.1 n "opacity") <$> [2; 3; 4]
    = [Some opacity_full; Some opacity_dimmed; Some opacity_dimmed].
Proof. by vm_compute. Qed.

(** Scenario of the specification: S = []. *)
Example scenario_cleared :
  let r := syncSelectionState (Some [2; 3]) (Some []) Scenario.doc in
  r.2 = Normal
  ∧ (λ n, style_of r.1 n "opacity") <$> [2; 3]
    = [Some opacity_full; Some opacity_full].
Proof. by vm_compute. Qed.

(** Scenario of the specification: M = [], S = [A]. *)
Example scenario_no_marks :
  syncSelectionState (Some []) (Some [[10]]) Scenario.doc
  = (Scenario.doc, Normal).
Proof. reflexivity. Qed.

(** A composite identifier includes the identifiers of its parts. *)
Example scenario_composite :
  let r := syncSelectionState (Some [2; 3; 4]) (Some [[30; 10]]) Scenario.doc in
  (λ n, style_of r.1 n "opacity") <$> [2; 3; 4]
  = [Some opacity_full; Some opacity_dimmed; Some opacity_full].
Proof. by vm_compute. Qed.

(** An element without a datum in the first argument: the callback
    throws there, after the marks before it have been updated. *)
Example scenario_no_datum :
  let r := syncSelectionState (Some [2; 5; 4]) (Some [[30]]) Scenario.doc in
  r.2 = TypeError
  ∧ (λ n, style_of r.1 n "opacity") <$> [2; 5; 4]
    = [Some opacity_dimmed; None; None].
Proof. by vm_compute. Qed.

(** The redraw of the scenario: the three old bars are detached, two new
    bars without opacity style hang below the svg. *)
Example scenario_redraw :
  let r := Scenario.redraw Scenario.options Scenario.doc in
  r.2 = Normal
  ∧ (λ n, parent_of r.1.2 n) <$> [2; 3; 4] = [None; None; None]
  ∧ selectAll (ByClass "bar") r.1.2 = [6; 7]
  ∧ (λ n, style_of r.1.2 n "opacity") <$> [6; 7] = [None; None]
  ∧ style_of r.1.2 3 "opacity" = Some opacity_dimmed.
Proof. by vm_compute. Qed.

(** Without data the redraw throws once the old bars are detached. *)
Example scenario_redraw_no_data :
  let r := Scenario.redraw Scenario.no_data Scenario.doc in
  r.2 = TypeError ∧ selectAll (ByClass "bar") r.1.2 = [].
Proof. by vm_compute. Qed.

Lemma sync_opaque_iff_included_witness :
  [[10]] ≠ [] ∧ Forall (is_mark Scenario.doc) [2; 3; 4] ∧ 3 ∈ [2; 3; 4]
  ∧ datum_of Scenario.doc 3 = Some B
  ∧ (style_of (syncSelectionState (Some [2; 3; 4]) (Some [[10]])
                 Scenario.doc).1 3 "opacity" = Some opacity_dimmed
     ↔ ¬ ∃ c, c ∈ [[10]] ∧ includes c (selectionId B) = true).
Proof.
  assert (Forall (is_mark Scenario.doc) [2; 3; 4]) as HM.
  { repeat constructor; vm_compute; eauto. }
  assert (3 ∈ [2; 3; 4]) as Hn by (right; left).
  repeat (split; [done|]).
  apply (sync_opaque_iff_included [2; 3; 4] [[10]] Scenario.doc 3 B);
    [done|exact HM|exact Hn|reflexivity].
Defined.

Lemma sync_empty_resets_witness :
  Forall (rendered_mark Scenario.doc) [3; 4] ∧ 3 ∈ [3; 4]
  ∧ style_of (syncSelectionState (Some [3; 4]) (Some []) Scenario.doc).1 3
      "opacity" = Some opacity_full.
Proof.
  assert (Forall (rendered_mark Scenario.doc) [3; 4]) as HM.
  { repeat constructor; eexists _, _;
      (split; [reflexivity|]); (split; [reflexivity|]);
      (split; [left|reflexivity]). }
  assert (3 ∈ [3; 4]) as Hn by left.
  repeat (split; [done|]).
  apply (sync_empty_resets [3; 4] Scenario.doc 3 HM Hn).
Defined.

Lemma sync_pure_in_identifier_witness :
  style_of (syncSelectionState (Some [2; 3]) (Some [[20]]) Scenario.doc).1 3
    "opacity"
  = style_of (syncSelectionState (Some [3]) (Some [[20]])
                (selection_style "opacity" opacity_dimmed [3] Scenario.doc)).1
      3 "opacity".
Proof.
  apply (sync_pure_in_identifier [[20]] [2; 3] [3] Scenario.doc
           (selection_style "opacity" opacity_dimmed [3] Scenario.doc)
           3 3 B B);
    try reflexivity.
  - right; left.
  - left.
Defined.

Lemma sync_selection_as_set_witness :
  syncSelectionState (Some [2; 3; 4]) (Some [[10]; [30]]) Scenario.doc
  = syncSelectionState (Some [2; 3; 4]) (Some [[30]; [10]; [30]]) Scenario.doc.
Proof.
  apply (sync_selection_as_set [2; 3; 4] [[10]; [30]] [[30]; [10]; [30]]
           Scenario.doc); [done|done|].
  intros c. rewrite !elem_of_cons, !elem_of_nil. tauto.
Defined.

Lemma update_rebuilds_marks_witness :
  visualSVG Scenario.visual = [1] ∧ is_Some (nodes Scenario.doc !! 1)
  ∧ parent_of (Scenario.redraw Scenario.options Scenario.doc).1.2 3 = None.
Proof.
  assert (is_Some (nodes Scenario.doc !! 1)) as Hsvg by (vm_compute; eauto).
  split; [reflexivity|]. split; [exact Hsvg|].
  apply (update_rebuilds_marks (λ _ i, [i]) (λ _, true) (λ l, head l)
           (λ _ _ _, Some 0%Z) (λ _ w, w) (λ _ h r, default 0%Z r) Z.sub
           ["mouseover"; "mouseout"] Scenario.visual Scenario.options
           Scenario.doc 1 3 eq_refl Hsvg).
  apply (bool_decide_unpack _). by vm_compute.
Defined.

(** ** Runs of the further properties *)

Local Abbreviation redraw_of := (update (I:=list nat) (number:=Z)
  (λ _ i, [i]) (λ _, true) (λ l, head l) (λ _ _ _, Some 0%Z)
  (λ _ w, w) (λ _ h r, default 0%Z r) Z.sub ["mouseover"; "mouseout"]).

Local Abbreviation cat0 := (Build_DataViewCategoryColumn ["FR"; "DE"]).

Lemma scenario_well_placed : well_placed Scenario.visual Scenario.doc.
Proof.
  exists 1. split; [reflexivity|]. split; [by vm_compute; eauto|].
  split; [|split]; apply (bool_decide_unpack _); by vm_compute.
Defined.

Lemma scenario_read :
  read_dataViews Scenario.options = Some (cat0, ["FR"; "DE"], [3%Z; 5%Z]).
Proof. reflexivity. Defined.

Lemma scenario_svg : is_Some (nodes Scenario.doc !! 1).
Proof. vm_compute. eauto. Defined.

Lemma scenario_child :
  parent_of (redraw_of Scenario.visual Scenario.options Scenario.doc).1.2 6
  = Some 1.
Proof. by vm_compute. Defined.

Lemma scenario_bars_marks :
  Forall (is_mark Scenario.doc) (selectAll (ByClass "bar") Scenario.doc).
Proof. apply (bool_decide_unpack _). by vm_compute. Defined.

Lemma constructor_well_placed_witness :
  well_placed (constructor 0 Scenario.doc).1 (constructor 0 Scenario.doc).2.
Proof.
  apply (constructor_well_placed 0 Scenario.doc).
  - vm_compute. eauto.
  - apply (bool_decide_unpack _). by vm_compute.
  - by vm_compute.
  - apply (bool_decide_unpack _). by vm_compute.
Defined.

Lemma update_frame_witness :
  ∃ e', nodes (redraw_of Scenario.visual Scenario.options Scenario.doc).1.2
          !! 3 = Some e'
    ∧ style e' = {["opacity" := opacity_dimmed]} ∧ parentNode e' = None.
Proof.
  destruct (update_frame (λ _ i, [i]) (λ _, true) (λ l, head l)
              (λ _ _ _, Some 0%Z) (λ _ w, w) (λ _ h r, default 0%Z r) Z.sub
              ["mouseover"; "mouseout"] Scenario.visual Scenario.options
              Scenario.doc 1 3 (Scenario.bar 20 (Some opacity_dimmed))
              eq_refl scenario_svg eq_refl)
    as (e' & He' & [= _ _ _ Hst _] & Hp & _).
  exists e'. split; [exact He'|]. split; [exact Hst|].
  rewrite Hp. by vm_compute.
Defined.

Lemma update_children_witness :
  ∃ ns : list node,
    length ns = 2
    ∧ ∀ m, parent_of (redraw_of Scenario.visual Scenario.options
                        Scenario.doc).1.2 m = Some 1 ↔ m ∈ ns.
Proof.
  destruct (update_children (λ _ i, [i]) (λ _, true) (λ l, head l)
              (λ _ _ _, Some 0%Z) (λ _ w, w) (λ _ h r, default 0%Z r) Z.sub
              ["mouseover"; "mouseout"] Scenario.visual Scenario.options
              Scenario.doc 1 eq_refl scenario_svg)
    as (ns & _ & Hlen & _ & Hch).
  exists ns. split; [exact Hlen|exact Hch].
Defined.


Lemma update_listeners_witness :
  ∃ e, nodes (redraw_of Scenario.visual Scenario.options Scenario.doc).1.2
         !! 7 = Some e
    ∧ "contextmenu" ∈ listeners e
    ∧ Forall (λ type, type ∈ listeners e) ["mouseover"; "mouseout"].
Proof.
  apply (update_listeners (λ _ i, [i]) (λ _, true) (λ l, head l)
           (λ _ _ _, Some 0%Z) (λ _ w, w) (λ _ h r, default 0%Z r) Z.sub
           ["mouseover"; "mouseout"] Scenario.visual Scenario.options
           Scenario.doc 1 cat0 ["FR"; "DE"] [3%Z; 5%Z] 7
           eq_refl scenario_svg scenario_read).
  apply (bool_decide_unpack _). by vm_compute.
Defined.

Lemma tooltip_of_bar_witness :
  ∃ i c,
    ["FR"; "DE"] !! i = Some c
    ∧ getTooltipData (λ x, if decide (x = 3%Z) then "3" else "5")
        (datum_of (redraw_of Scenario.visual Scenario.options
                     Scenario.doc).1.2 6)
      = Some [{| header := c; displayName := "Revenue";
                 tooltipValue :=
                   if [3%Z; 5%Z] !! i is Some x
                   then (if decide (x = 3%Z) then "3" else "5")
                   else "undefined" |}]
    ∧ getDataPointIdentity
        (datum_of (redraw_of Scenario.visual Scenario.options
                     Scenario.doc).1.2 6)
      = Some [i].
Proof.
  apply (tooltip_of_bar (λ _ i, [i]) (λ _, true) (λ l, head l)
           (λ _ _ _, Some 0%Z) (λ _ w, w) (λ _ h r, default 0%Z r) Z.sub
           ["mouseover"; "mouseout"]
           (λ x, if decide (x = 3%Z) then "3" else "5")
           Scenario.visual Scenario.options Scenario.doc 1 cat0
           ["FR"; "DE"] [3%Z; 5%Z] 6
           eq_refl scenario_svg scenario_read scenario_child).
Defined.

Lemma update_bars_rendered_witness :
  rendered_mark (redraw_of Scenario.visual Scenario.options Scenario.doc).1.2 6.
Proof.
  apply (update_bars_rendered (λ _ i, [i]) (λ _, true) (λ l, head l)
           (λ _ _ _, Some 0%Z) (λ _ w, w) (λ _ h r, default 0%Z r) Z.sub
           ["mouseover"; "mouseout"] Scenario.visual Scenario.options
           Scenario.doc 1 6 scenario_well_placed eq_refl scenario_child).
Defined.

Lemma handle_all_well_placed_witness :
  (click_resolved (Some [[1]])
     (handle_all (λ _ i, [i]) (λ _, true) (λ l, head l)
        (λ _ _ _, Some 0%Z) (λ _ w, w) (λ _ h r, default 0%Z r) Z.sub
        ["mouseover"; "mouseout"]
        [Redraw Scenario.options; ClickResolved (Some [[0]]);
         Redraw Scenario.no_data; ClickResolved (Some []);
         Redraw Scenario.options]
        (Scenario.visual, Scenario.doc)).2).2 = Normal.
Proof.
  apply (handle_all_well_placed (λ _ i, [i]) (λ _, true) (λ l, head l)
           (λ _ _ _, Some 0%Z) (λ _ w, w) (λ _ h r, default 0%Z r) Z.sub
           ["mouseover"; "mouseout"]
           [Redraw Scenario.options; ClickResolved (Some [[0]]);
            Redraw Scenario.no_data; ClickResolved (Some []);
            Redraw Scenario.options]
           Scenario.visual Scenario.doc (Some [[1]]) scenario_well_placed).
Defined.

Lemma click_after_redraw_witness :
  (click_resolved (Some [[0]])
     (redraw_of Scenario.visual Scenario.options Scenario.doc).1.2).2
  = Normal.
Proof.
  apply (click_after_redraw (λ _ i, [i]) (λ _, true) (λ l, head l)
           (λ _ _ _, Some 0%Z) (λ _ w, w) (λ _ h r, default 0%Z r) Z.sub
           ["mouseover"; "mouseout"] Scenario.visual Scenario.options
           Scenario.doc 1 cat0 ["FR"; "DE"] [3%Z; 5%Z] [[0]] 6
           scenario_well_placed eq_refl scenario_read scenario_child).
Defined.

Lemma sync_leaves_others_witness :
  nodes (syncSelectionState (Some [2; 3]) (Some [[10]]) Scenario.doc).1 !! 4
  = nodes Scenario.doc !! 4.
Proof.
  apply (sync_leaves_others [2; 3] [[10]] Scenario.doc 4); [done|].
  rewrite !elem_of_cons, elem_of_nil. lia.
Defined.

Lemma sync_throws_at_missing_datum_witness :
  syncSelectionState (Some ([2] ++ 5 :: [4])) (Some [[30]]) Scenario.doc
  = ((syncSelectionState (Some [2]) (Some [[30]]) Scenario.doc).1, TypeError).
Proof.
  apply (sync_throws_at_missing_datum [2] 5 [4] [[30]] Scenario.doc).
  - done.
  - repeat constructor. vm_compute. eauto.
  - vm_compute. eauto.
  - reflexivity.
Defined.

Lemma sync_marks_as_set_witness :
  syncSelectionState (Some [2; 3; 4]) (Some [[10]]) Scenario.doc
  = syncSelectionState (Some [4; 2; 3; 2]) (Some [[10]]) Scenario.doc.
Proof.
  apply (sync_marks_as_set [2; 3; 4] [4; 2; 3; 2] [[10]] Scenario.doc).
  - repeat constructor; vm_compute; eauto.
  - repeat constructor; vm_compute; eauto.
  - intros n. rewrite !elem_of_cons, !elem_of_nil. tauto.
Defined.

Lemma sync_later_overrides_witness :
  syncSelectionState (Some [2; 3; 4]) (Some [[20]])
    (syncSelectionState (Some [2; 3; 4]) (Some [[10]]) Scenario.doc).1
  = syncSelectionState (Some [2; 3; 4]) (Some [[20]]) Scenario.doc.
Proof.
  by apply (sync_later_overrides [2; 3; 4] [[10]] [[20]] Scenario.doc).
Defined.

Lemma click_resolved_emphasises_bars_witness :
  (click_resolved (Some [[10]]) Scenario.doc).2 = Normal.
Proof.
  apply (click_resolved_emphasises_bars [[10]] Scenario.doc 2
           scenario_bars_marks).
Defined.

Lemma click_last_wins_witness :
  click_resolved (Some [[20]]) (click_resolved (Some []) Scenario.doc).1
  = click_resolved (Some [[20]]) Scenario.doc.
Proof.
  apply (click_last_wins [] [[20]] Scenario.doc scenario_bars_marks).
Defined.

End Runs.
